(** * Sales Intelligence Dashboard: the data layer of [data_loader.py]

    A shallow embedding of the loader, the filter and the six aggregation
    reducers, followed by the properties the specification states about
    them.

    Conventions of the embedding.
    - A [DataFrame] is the list of its rows, in index order.
    - The [Sales] column holds finite numbers; they are modelled as
      rationals ([Q]), and sums, means and the quotient of the KPIs are
      exact.  Results are compared with [==] ([Qeq]).
    - A quotient whose divisor may be zero is a [float64]: a finite rational,
      an infinity, or NaN, as NumPy produces them.
    - The quotients and the product behind the segment labels go through a
      [Rounding]: the labels are decided by a comparison of rounded numbers.
      [binary64] is the rounding of float64, [exact] rounds nothing.
    - Which of several rows of equal Sales [sort_values] puts first is not
      fixed by pandas' default sort; the sort is a [SortKind], and the
      properties hold for every sort that orders and permutes the rows.
    - Python exceptions are the [Raise] branch of [result]. *)

From Stdlib Require Import List String Ascii Bool Arith ZArith NArith QArith.
From Stdlib Require Import Lia Sorted Permutation DecimalString.
From Stdlib Require Import Setoid Morphisms Qpower.
Import ListNotations.

Local Open Scope Q_scope.

(** ** Numbers *)

(** The values a float64 column can hold. *)
Inductive float64 : Type :=
| Fin (q : Q)
| PosInf
| NegInf
| NaN.

(** *** Rounding

    A float64 operation returns the exact result rounded to the nearest
    number with a significand of 53 bits, ties to the even significand.  The
    range of the exponent is not modelled: amounts of a sales file are far
    from overflow and underflow. *)

Class Rounding : Type := { rnd : Q -> Q }.

(** The integer nearest to [n / d], ties to even ([0 < d]). *)
Definition rne (n d : Z) : Z :=
  let q := (n / d)%Z in
  let r := (n mod d)%Z in
  match (2 * r ?= d)%Z with
  | Lt => q
  | Gt => (q + 1)%Z
  | Eq => if Z.even q then q else (q + 1)%Z
  end.

(** [a / d / 2 ^ e] as a fraction of two integers. *)
Definition scaled_num (a e : Z) : Z := (a * 2 ^ Z.max 0 (- e))%Z.

Definition scaled_den (d e : Z) : Z := (d * 2 ^ Z.max 0 e)%Z.

(** The exponent [e] of the last bit of the significand of [a / d]:
    [2 ^ 52 <= a / d / 2 ^ e < 2 ^ 53] ([0 < a], [0 < d]). *)
Definition binade (a d : Z) : Z :=
  let e0 := (Z.log2 a - Z.log2 d - 52)%Z in
  if (scaled_num a e0 <? 2 ^ 52 * scaled_den d e0)%Z then (e0 - 1)%Z else e0.

Definition round_pos (a d : Z) : Q :=
  let e := binade a d in
  inject_Z (rne (scaled_num a e) (scaled_den d e)) * 2 ^ e.

Definition round_binary64 (q : Q) : Q :=
  match Qnum q with
  | Z0 => 0
  | Zpos p => round_pos (Zpos p) (Zpos (Qden q))
  | Zneg p => - round_pos (Zpos p) (Zpos (Qden q))
  end.

(** The arithmetic of float64. *)
Definition binary64 : Rounding := {| rnd := round_binary64 |}.

(** Arithmetic without rounding. *)
Definition exact : Rounding := {| rnd := fun q => q |}.

(** [a / b] on float64 values that are finite: NumPy raises nothing on a zero
    divisor, it yields NaN for 0/0 and an infinity of the sign of [a]
    otherwise (a zero divisor is taken as +0.0, which is what a sum of
    columns yields). *)
Definition truediv {R : Rounding} (a b : Q) : float64 :=
  if Qeq_bool b 0 then
    if Qeq_bool a 0 then NaN
    else if Qle_bool 0 a then PosInf else NegInf
  else Fin (rnd (a / b)).

(** [x * c] for a finite positive constant [c]. *)
Definition fmul_pos {R : Rounding} (x : float64) (c : Q) : float64 :=
  match x with
  | Fin q => Fin (rnd (q * c))
  | other => other
  end.

(** [x < y] for a finite [y]; every comparison with NaN is false. *)
Definition flt (x : float64) (y : Q) : bool :=
  match x with
  | Fin q => negb (Qle_bool y q)
  | NegInf => true
  | PosInf => false
  | NaN => false
  end.

(** IEEE addition, used to total a float64 column. *)
Definition fadd (x y : float64) : float64 :=
  match x, y with
  | NaN, _ | _, NaN => NaN
  | PosInf, NegInf | NegInf, PosInf => NaN
  | PosInf, _ | _, PosInf => PosInf
  | NegInf, _ | _, NegInf => NegInf
  | Fin a, Fin b => Fin (a + b)
  end.

Definition fsum (xs : list float64) : float64 := fold_right fadd (Fin 0) xs.

(** [Series.sum] of a float64 column: NaN entries are skipped. *)
Definition nansum (xs : list float64) : float64 :=
  fsum (filter (fun x => match x with NaN => false | _ => true end) xs).

(** Equality of a float64 with a rational. *)
Definition feq (x : float64) (q : Q) : Prop :=
  match x with
  | Fin p => p == q
  | _ => False
  end.

Definition Qsum (l : list Q) : Q := fold_right Qplus 0 l.

Definition Qof_nat (n : nat) : Q := inject_Z (Z.of_nat n).

(** [Series.mean] of an integer column: NaN on an empty column. *)
Definition mean (l : list Z) : float64 :=
  match l with
  | [] => NaN
  | _ :: _ => Fin (inject_Z (fold_right Z.add 0%Z l) / Qof_nat (List.length l))
  end.

(** ** Exceptions *)

Inductive exn : Type :=
| ZeroDivisionError.

Inductive result (A : Type) : Type :=
| Ok (a : A)
| Raise (e : exn).

Arguments Ok {A} a.
Arguments Raise {A} e.

(** ** Dates *)

Record date : Type := mkDate { d_day : Z; d_month : Z; d_year : Z }.

Definition is_leap (y : Z) : bool :=
  ((y mod 4 =? 0) && negb (y mod 100 =? 0) || (y mod 400 =? 0))%Z.

Definition days_before_year (y : Z) : Z :=
  let p := (y - 1)%Z in (p * 365 + p / 4 - p / 100 + p / 400)%Z.

Definition days_before_month (y m : Z) : Z :=
  (nth (Z.to_nat (m - 1))
       [0; 31; 59; 90; 120; 151; 181; 212; 243; 273; 304; 334] 0
   + (if (2 <? m) && is_leap y then 1 else 0))%Z.

(** Day number of a date in the proleptic Gregorian calendar.  A parsed
    [Order Date] is a timestamp at midnight, so timestamps compare as their
    day numbers and differ by whole days. *)
Definition to_ordinal (d : date) : Z :=
  (days_before_year (d_year d) + days_before_month (d_year d) (d_month d)
   + d_day d)%Z.

Definition date_leb (a b : date) : bool := (to_ordinal a <=? to_ordinal b)%Z.

(** [n] in decimal, padded with zeros on the left to [width] characters. *)
Definition zero_pad (width : nat) (n : Z) : string :=
  let s := NilZero.string_of_uint (N.to_uint (Z.to_N n)) in
  let fix zeros (k : nat) : string :=
    match k with
    | O => EmptyString
    | S k' => String "0"%char (zeros k')
    end in
  (zeros (width - String.length s)%nat ++ s)%string.

(** [dt.to_period('M').astype(str)]: the bucket key "YYYY-MM". *)
Definition period_M (d : date) : string :=
  (zero_pad 4 (d_year d) ++ "-" ++ zero_pad 2 (d_month d))%string.

(** ** Records *)

(** One line of the CSV file, its two dates already read in the format
    day/month/year. *)
Record csv_row : Type := mkRow {
  csv_order_id : string;
  csv_order_date : date;
  csv_ship_date : date;
  csv_region : string;
  csv_segment : string;
  csv_category : string;
  csv_sub_category : string;
  csv_product_name : string;
  csv_sales : Q
}.

(** One row of the data frame [load_data] returns: the columns of the file
    and the derived ones. *)
Record record : Type := mkRecord {
  order_id : string;
  order_date : date;
  ship_date : date;
  region : string;
  segment : string;
  category : string;
  sub_category : string;
  product_name : string;
  sales : Q;
  shipping_days : Z;
  year : Z;
  month : Z;
  year_month : string
}.

Definition DataFrame : Type := list record.

Definition load_row (r : csv_row) : record :=
  {| order_id := csv_order_id r;
     order_date := csv_order_date r;
     ship_date := csv_ship_date r;
     region := csv_region r;
     segment := csv_segment r;
     category := csv_category r;
     sub_category := csv_sub_category r;
     product_name := csv_product_name r;
     sales := csv_sales r;
     shipping_days :=
       (to_ordinal (csv_ship_date r) - to_ordinal (csv_order_date r))%Z;
     year := d_year (csv_order_date r);
     month := d_month (csv_order_date r);
     year_month := period_M (csv_order_date r) |}.

Definition load_data (rows : list csv_row) : DataFrame := map load_row rows.

(** ** filter_data *)

(** [Series.isin]. *)
Definition isin (v : string) (values : list string) : bool :=
  existsb (String.eqb v) values.

(** One categorical step: [if sel and len(sel) > 0: df = df[df[col].isin(sel)]].
    [None] stands for the default argument. *)
Definition restrict (col : record -> string) (sel : option (list string))
    (df : DataFrame) : DataFrame :=
  match sel with
  | Some ((_ :: _) as values) => filter (fun r => isin (col r) values) df
  | Some [] | None => df
  end.

(** The date step: applied when [date_range] has exactly two elements. *)
Definition restrict_dates (date_range : option (list date)) (df : DataFrame)
    : DataFrame :=
  match date_range with
  | Some [start_date; end_date] =>
      filter (fun r => date_leb start_date (order_date r)
                       && date_leb (order_date r) end_date) df
  | _ => df
  end.

Definition filter_data (df : DataFrame)
    (regions segments categories sub_categories : option (list string))
    (date_range : option (list date)) : DataFrame :=
  let filtered_df := df in
  let filtered_df := restrict region regions filtered_df in
  let filtered_df := restrict segment segments filtered_df in
  let filtered_df := restrict category categories filtered_df in
  let filtered_df := restrict sub_category sub_categories filtered_df in
  let filtered_df := restrict_dates date_range filtered_df in
  filtered_df.

(** ** Group keys

    [groupby] needs keys that can be compared for equality and ordered:
    strings for a single column, tuples for several. *)

Class Key (K : Type) : Type := {
  key_eqb : K -> K -> bool;
  key_leb : K -> K -> bool
}.

Class KeyLaws (K : Type) `{Key K} : Prop := {
  key_eqb_eq : forall a b : K, key_eqb a b = true <-> a = b;
  key_leb_total : forall a b : K, key_leb a b = true \/ key_leb b a = true;
  key_leb_trans : forall a b c : K,
    key_leb a b = true -> key_leb b c = true -> key_leb a c = true;
  key_leb_antisym : forall a b : K,
    key_leb a b = true -> key_leb b a = true -> a = b
}.

(** Strings compare character by character, by code. *)
#[export] Instance string_Key : Key string :=
  {| key_eqb := String.eqb; key_leb := String.leb |}.

(** Tuples compare lexicographically. *)
#[export] Instance pair_Key {A B : Type} `{Key A} `{Key B} : Key (A * B) :=
  {| key_eqb := fun p q => key_eqb (fst p) (fst q) && key_eqb (snd p) (snd q);
     key_leb := fun p q =>
       if key_eqb (fst p) (fst q) then key_leb (snd p) (snd q)
       else key_leb (fst p) (fst q) |}.

(** ** groupby *)

Section GroupBy.
Context {K : Type} `{Key K}.

(** The distinct values of a column, in order of first appearance. *)
Fixpoint unique (l : list K) : list K :=
  match l with
  | [] => []
  | x :: l' => x :: filter (fun y => negb (key_eqb x y)) (unique l')
  end.

Fixpoint insert_key (x : K) (l : list K) : list K :=
  match l with
  | [] => [x]
  | y :: l' => if key_leb x y then x :: y :: l' else y :: insert_key x l'
  end.

Definition sort_keys (l : list K) : list K := fold_right insert_key [] l.

(** The group keys of [df.groupby(by)]: the distinct keys, sorted
    ([sort=True] is the default). *)
Definition group_keys (by_ : record -> K) (df : DataFrame) : list K :=
  sort_keys (unique (map by_ df)).

(** The rows of one group. *)
Definition group (by_ : record -> K) (k : K) (df : DataFrame) : DataFrame :=
  filter (fun r => key_eqb (by_ r) k) df.

(** [df.groupby(by)[col].sum().reset_index()]. *)
Definition groupby_sum (by_ : record -> K) (col : record -> Q)
    (df : DataFrame) : list (K * Q) :=
  map (fun k => (k, Qsum (map col (group by_ k df)))) (group_keys by_ df).

(** [df.groupby(by)[col].mean().reset_index()]. *)
Definition groupby_mean (by_ : record -> K) (col : record -> Z)
    (df : DataFrame) : list (K * float64) :=
  map (fun k => (k, mean (map col (group by_ k df)))) (group_keys by_ df).

(** *** Two sorts by Sales from the largest down

    A stable ascending sort by insertion, and two ways to sort downwards
    with it.  They differ in the order of rows of equal Sales. *)
Fixpoint insert_asc (x : K * Q) (l : list (K * Q)) : list (K * Q) :=
  match l with
  | [] => [x]
  | y :: l' =>
      if Qle_bool (snd x) (snd y) then x :: y :: l' else y :: insert_asc x l'
  end.

Definition argsort_asc (l : list (K * Q)) : list (K * Q) :=
  fold_right insert_asc [] l.

(** Reverse, sort upwards, reverse: rows of equal Sales keep the order of
    the table. *)
Definition stable_desc (t : list (K * Q)) : list (K * Q) :=
  rev (argsort_asc (rev t)).

(** Sort upwards, reverse: rows of equal Sales come in the reverse of the
    order of the table. *)
Definition backward_desc (t : list (K * Q)) : list (K * Q) :=
  rev (argsort_asc t).
End GroupBy.

(** *** sort_values

    [t.sort_values('Sales', ascending=False)] with the default
    [kind='quicksort'], which is not stable: the rows come by Sales from the
    largest down, and the order of rows of equal Sales is left to the
    sorting routine.  The routine is a [SortKind]; what is known of it is
    [SortLaws], below. *)
Class SortKind : Type := {
  sort_values_desc : forall {K : Type}, list (K * Q) -> list (K * Q)
}.

Definition stable_sort : SortKind :=
  {| sort_values_desc := fun K => @stable_desc K |}.

Definition backward_sort : SortKind :=
  {| sort_values_desc := fun K => @backward_desc K |}.

(** [Series.nunique]. *)
Definition nunique (l : list string) : nat := List.length (unique l).

(** ** The six reducers *)

Record kpi : Type := mkKpi {
  total_sales : Q;
  total_orders : nat;
  avg_order_value : Q;
  avg_shipping_days : float64
}.

Definition get_kpi_metrics (df : DataFrame) : kpi :=
  let total_sales := Qsum (map sales df) in
  let total_orders := nunique (map order_id df) in
  let avg_order_value :=
    if (0 <? total_orders)%nat then total_sales / Qof_nat total_orders
    else 0 in
  let avg_shipping_days := mean (map shipping_days df) in
  {| total_sales := total_sales;
     total_orders := total_orders;
     avg_order_value := avg_order_value;
     avg_shipping_days := avg_shipping_days |}.

Definition get_category_performance {S : SortKind} (df : DataFrame)
    : list (string * Q) * list ((string * string) * Q) :=
  let category_sales := groupby_sum category sales df in
  let category_sales := sort_values_desc category_sales in
  let subcategory_sales :=
    groupby_sum (fun r => (category r, sub_category r)) sales df in
  let subcategory_sales := sort_values_desc subcategory_sales in
  (category_sales, subcategory_sales).

Definition get_regional_performance {S : SortKind} (df : DataFrame)
    : list (string * Q) :=
  let regional_sales := groupby_sum region sales df in
  let regional_sales := sort_values_desc regional_sales in
  regional_sales.

Definition get_time_series_data (df : DataFrame) : list (string * Q) :=
  let time_series := groupby_sum year_month sales df in
  time_series.

Definition get_shipping_analysis (df : DataFrame) : list (string * float64) :=
  let shipping_by_category := groupby_mean category shipping_days df in
  shipping_by_category.

Inductive status : Type :=
| BelowAverage
| AboveAverage.

Record segment_row : Type := mkSegmentRow {
  seg_name : string;
  revenue_share : float64;
  seg_status : status
}.

(** [100 / n] on Python integers: raises on [n = 0], and is the rounded
    quotient otherwise. *)
Definition int_truediv {R : Rounding} (a : Z) (n : nat) : result Q :=
  match n with
  | O => Raise ZeroDivisionError
  | S _ => Ok (rnd (inject_Z a / Qof_nat n))
  end.

Definition identify_underperforming_segments {R : Rounding} (df : DataFrame)
    : result (list segment_row) :=
  let segment_sales := groupby_sum segment sales df in
  let total_sales := Qsum (map snd segment_sales) in
  let segment_share :=
    map (fun row => (fst row, fmul_pos (truediv (snd row) total_sales) 100))
        segment_sales in
  match int_truediv 100 (List.length segment_share) with
  | Raise e => Raise e
  | Ok avg_share =>
      Ok (map (fun row =>
                 {| seg_name := fst row;
                    revenue_share := snd row;
                    seg_status :=
                      if flt (snd row) avg_share then BelowAverage
                      else AboveAverage |})
              segment_share)
  end.

(** ** The dashboard script (app.py)

    The expressions of the script that compute on the data frame; widgets
    and charts are not modelled. *)

(** [df[col].unique().tolist()]: the options of a sidebar filter. *)
Definition all_values (col : record -> string) (df : DataFrame) : list string :=
  unique (map col df).

(** [df[df['Category'].isin(selected_categories)]['Sub-Category'].unique()]:
    the sub-categories offered for the selected categories. *)
Definition available_subcategories (df : DataFrame)
    (selected_categories : list string) : list string :=
  unique (map sub_category
            (filter (fun r => isin (category r) selected_categories) df)).

(** [df['Order Date'].min()] and [.max()]; there is none on an empty frame. *)
Definition earlier (a b : date) : date := if date_leb a b then a else b.
Definition later (a b : date) : date := if date_leb a b then b else a.

Definition min_order_date (df : DataFrame) : option date :=
  match df with
  | [] => None
  | r :: df' => Some (fold_left earlier (map order_date df') (order_date r))
  end.

Definition max_order_date (df : DataFrame) : option date :=
  match df with
  | [] => None
  | r :: df' => Some (fold_left later (map order_date df') (order_date r))
  end.

(** [s.nlargest(n)] on a grouped table: the first [n] rows by value from the
    largest down. *)
Definition nlargest {S : SortKind} {K : Type} (n : nat) (t : list (K * Q))
    : list (K * Q) :=
  firstn n (sort_values_desc t).

(** [filtered_df.groupby('Product Name')['Sales'].sum().nlargest(10)]: the
    table of the top products, before its Revenue column is formatted as
    text. *)
Definition top_products {S : SortKind} (df : DataFrame)
    : list (string * Q) :=
  nlargest 10 (groupby_sum product_name sales df).

(** ** The vocabulary of the specification *)

(** What a categorical selection demands of a field value: membership, when
    the selection is present and not empty; nothing otherwise. *)
Definition within (sel : option (list string)) (v : string) : Prop :=
  forall values, sel = Some values -> values <> [] -> In v values.

(** What a date range demands of an order date: to lie between the two
    bounds, when the range is a pair; nothing otherwise. *)
Definition in_date_range (date_range : option (list date)) (d : date) : Prop :=
  forall start_date end_date,
    date_range = Some [start_date; end_date] ->
    (to_ordinal start_date <= to_ordinal d <= to_ordinal end_date)%Z.

(** A selection that constrains nothing. *)
Definition unconstrained (sel : option (list string)) : Prop :=
  sel = None \/ sel = Some [].

(** [x] stands before [y] in [l]. *)
Definition precedes {A : Type} (x y : A) (l : list A) : Prop :=
  exists l1 l2 l3, l = l1 ++ x :: l2 ++ y :: l3.

Section TableOrder.
Context {K : Type} `{Key K}.

Definition sales_le (x y : K * Q) : Prop := snd x <= snd y.
Definition sales_ge (x y : K * Q) : Prop := snd y <= snd x.

(** The rows whose Sales value is [v]. *)
Definition with_sales (v : Q) (x : K * Q) : bool := Qeq_bool (snd x) v.

Definition key_le (a b : K) : Prop := key_leb a b = true.
Definition key_lt (a b : K) : Prop := key_leb a b = true /\ a <> b.

(** Rows compared by their group key. *)
Definition row_key_lt {V : Type} (x y : K * V) : Prop :=
  key_lt (fst x) (fst y).

End TableOrder.

(** Ties in the order of first appearance in the input: of two rows of equal
    Sales, the one that stands first has the key met first in the input. *)
Definition ties_by_first_appearance {K : Type} `{Key K} (by_ : record -> K)
    (df : DataFrame) (t : list (K * Q)) : Prop :=
  forall x y : K * Q,
    precedes x y t -> snd x == snd y ->
    precedes (fst x) (fst y) (unique (map by_ df)).

(** What float64 rounding is known to do: it keeps the order, and it returns
    0, 1 and 100, which float64 holds, as they are. *)
Class RoundingLaws {R : Rounding} : Prop := {
  rnd_monotone : forall x y : Q, x <= y -> rnd x <= rnd y;
  rnd_0 : rnd 0 == 0;
  rnd_1 : rnd 1 == 1;
  rnd_100 : rnd 100 == 100
}.

(** The row the reducer builds for one group: its share of [total], and the
    label against the average share [avg]. *)
Definition share_row {R : Rounding} (total avg : Q) (row : string * Q)
    : segment_row :=
  let x := fmul_pos (truediv (snd row) total) 100 in
  {| seg_name := fst row;
     revenue_share := x;
     seg_status := if flt x avg then BelowAverage else AboveAverage |}.

(** The shares of a table add up to 100. *)
Definition shares_sum_to_100 (rows : list segment_row) : Prop :=
  feq (fsum (map revenue_share rows)) 100.

(** [t] is the table of the sums of [col] over the groups of [by_]: one row
    for each key that occurs in the frame, holding the sum over the rows of
    that key. *)
Definition table_of {K : Type} `{Key K} (by_ : record -> K)
    (col : record -> Q) (df : DataFrame) (t : list (K * Q)) : Prop :=
  NoDup (map fst t)
  /\ forall k v, In (k, v) t
       <-> In k (map by_ df) /\ v = Qsum (map col (group by_ k df)).

(** The sum of an integer column. *)
Definition Zsum (l : list Z) : Z := fold_right Z.add 0%Z l.

(** The test one categorical step applies to a row. *)
Definition selected (col : record -> string) (sel : option (list string))
    (r : record) : bool :=
  match sel with
  | Some ((_ :: _) as values) => isin (col r) values
  | Some [] | None => true
  end.

(** The test the date step applies to a row. *)
Definition in_range (date_range : option (list date)) (r : record) : bool :=
  match date_range with
  | Some [start_date; end_date] =>
      date_leb start_date (order_date r) && date_leb (order_date r) end_date
  | _ => true
  end.

(** The conjunction of the tests [filter_data] applies. *)
Definition keeps (regions segments categories sub_categories
                  : option (list string))
    (date_range : option (list date)) (r : record) : bool :=
  selected region regions r && selected segment segments r
  && selected category categories r
  && selected sub_category sub_categories r
  && in_range date_range r.

(** The month of a date, counted from year 0. *)
Definition month_index (d : date) : Z := (d_year d * 12 + d_month d - 1)%Z.

(** A date whose year a timestamp can hold and whose month exists. *)
Definition timestamp_month (d : date) : Prop :=
  (1677 <= d_year d <= 2262 /\ 1 <= d_month d <= 12)%Z.

(** The bucket key of the [i]-th month. *)
Definition month_key (i : Z) : string :=
  period_M (mkDate 1 (i mod 12 + 1) (i / 12)).

(** Two tables with the same keys and equal values, row by row. *)
Definition same_table {K : Type} (t1 t2 : list (K * Q)) : Prop :=
  Forall2 (fun x y => fst x = fst y /\ snd x == snd y) t1 t2.

(** What every sorting routine of [sort_values] does: it returns the rows of
    the table, by Sales from the largest down, and what it returns depends
    on the table alone. *)
Class SortLaws {S : SortKind} : Prop := {
  sort_values_desc_Permutation :
    forall {K : Type} (t : list (K * Q)), Permutation (sort_values_desc t) t;
  sort_values_desc_sorted :
    forall {K : Type} (t : list (K * Q)),
      StronglySorted sales_ge (sort_values_desc t);
  sort_values_desc_same :
    forall {K : Type} (t t' : list (K * Q)),
      same_table t t' ->
      same_table (sort_values_desc t) (sort_values_desc t')
}.

(** ** Sample data *)

Section Samples.
Local Open Scope string_scope.

(** A line of the file with the given order id, dates, region, segment and
    amount; [rest] holds its category, sub-category and product name. *)
Definition line (oid : string) (ordered shipped : date) (reg seg : string)
    (amount : Q) (rest : string * string * string) : csv_row :=
  {| csv_order_id := oid;
     csv_order_date := ordered;
     csv_ship_date := shipped;
     csv_region := reg;
     csv_segment := seg;
     csv_category := fst (fst rest);
     csv_sub_category := snd (fst rest);
     csv_product_name := snd rest;
     csv_sales := amount |}.

(** The three records of the scenario of the specification; [x], [y] and [z]
    hold the columns the scenario leaves open. *)
Definition order_A (x : string * string * string) : csv_row :=
  line "A" (mkDate 1 1 2023) (mkDate 3 1 2023) "West" "Consumer" 100 x.

Definition order_B (y : string * string * string) : csv_row :=
  line "B" (mkDate 15 1 2023) (mkDate 16 1 2023) "East" "Corporate" 200 y.

Definition order_A_line2 (z : string * string * string) : csv_row :=
  line "A" (mkDate 1 1 2023) (mkDate 3 1 2023) "West" "Consumer" 50 z.

Definition scenario (x y z : string * string * string) : DataFrame :=
  load_data [order_A x; order_B y; order_A_line2 z].

(** Two categories with the same sales, the alphabetically later one
    first in the input. *)
Definition tie_rows : DataFrame :=
  load_data
    [ line "A" (mkDate 1 1 2023) (mkDate 3 1 2023) "West" "Consumer" 100
        ("Technology", "Phones", "P1");
      line "B" (mkDate 2 1 2023) (mkDate 4 1 2023) "West" "Consumer" 100
        ("Furniture", "Chairs", "P2") ].

(** A subset of one record that sold for nothing. *)
Definition zero_sale : DataFrame :=
  load_data
    [ line "A" (mkDate 1 1 2023) (mkDate 3 1 2023) "West" "Consumer" 0
        ("Furniture", "Chairs", "P1") ].

(** Three segments with the same sales. *)
Definition thirds : DataFrame :=
  load_data
    [ line "A" (mkDate 1 1 2023) (mkDate 3 1 2023) "West" "Consumer" 100
        ("Furniture", "Chairs", "P1");
      line "B" (mkDate 2 1 2023) (mkDate 4 1 2023) "East" "Corporate" 100
        ("Technology", "Phones", "P2");
      line "C" (mkDate 3 1 2023) (mkDate 5 1 2023) "East" "Home Office" 100
        ("Technology", "Phones", "P3") ].

(** Four categories, two of them with the sales 100 and two with 200. *)
Definition four_categories : DataFrame :=
  load_data
    [ line "A" (mkDate 1 1 2023) (mkDate 3 1 2023) "West" "Consumer" 100
        ("Furniture", "Chairs", "P1");
      line "B" (mkDate 2 1 2023) (mkDate 4 1 2023) "West" "Consumer" 100
        ("Office", "Paper", "P2");
      line "C" (mkDate 3 1 2023) (mkDate 5 1 2023) "East" "Corporate" 200
        ("Supplies", "Binders", "P3");
      line "D" (mkDate 4 1 2023) (mkDate 6 1 2023) "East" "Corporate" 200
        ("Technology", "Phones", "P4") ].

(** Two segments with the same sales: each holds exactly the average share. *)
Definition even_split : DataFrame :=
  load_data
    [ line "A" (mkDate 1 1 2023) (mkDate 3 1 2023) "West" "Consumer" 100
        ("Furniture", "Chairs", "P1");
      line "B" (mkDate 2 1 2023) (mkDate 4 1 2023) "East" "Corporate" 100
        ("Technology", "Phones", "P2") ].
End Samples.

(** A selection that is applied and that no row of the frame meets. *)
Definition matches_nothing (col : record -> string)
    (sel : option (list string)) (df : DataFrame) : Prop :=
  exists values, sel = Some values /\ values <> []
                 /\ forall r, In r df -> ~ In (col r) values.

Section MoreSamples.
Local Open Scope string_scope.

(** The scenario with its open columns filled in. *)
Definition sample : DataFrame :=
  scenario ("Furniture", "Chairs", "Chair X")
           ("Technology", "Phones", "Phone Y")
           ("Furniture", "Tables", "Table Z").

(** A frame with an order in January and, after it, one of the December
    before. *)
Definition winter_january : csv_row :=
  line "C" (mkDate 5 1 2024) (mkDate 9 1 2024) "West" "Consumer" 30
    ("Furniture", "Chairs", "Chair X").

Definition winter_december : csv_row :=
  line "D" (mkDate 28 12 2023) (mkDate 2 1 2024) "East" "Corporate" 70
    ("Technology", "Phones", "Phone Y").

Definition winter_rows : list csv_row := [winter_january; winter_december].

Definition winter : DataFrame := load_data winter_rows.
End MoreSamples.

(** * Properties *)

(** ** filter_data *)

Section FilterFacts.

Lemma isin_In (v : string) (values : list string) :
  isin v values = true <-> In v values.
Proof.
  unfold isin. rewrite existsb_exists. split.
  - intros [x [Hx Hv]]. apply String.eqb_eq in Hv. now subst.
  - intros Hin. exists v. split; [assumption | apply String.eqb_refl].
Qed.

Lemma In_restrict (col : record -> string) (sel : option (list string))
    (df : DataFrame) (r : record) :
  In r (restrict col sel df) <-> In r df /\ within sel (col r).
Proof.
  unfold restrict, within. destruct sel as [[|v values]|].
  - split; [intros Hin; split; [assumption|] | tauto].
    intros values Heq Hne. injection Heq as <-. now destruct Hne.
  - rewrite filter_In, isin_In. split.
    + intros [Hin Hmem]. split; [assumption|].
      intros values' Heq _. injection Heq as <-. exact Hmem.
    + intros [Hin Hw]. split; [assumption|].
      apply Hw; [reflexivity | discriminate].
  - split; [intros Hin; split; [assumption|] | tauto].
    intros values Heq. discriminate.
Qed.

Lemma In_restrict_dates (date_range : option (list date)) (df : DataFrame)
    (r : record) :
  In r (restrict_dates date_range df) <->
  In r df /\ in_date_range date_range (order_date r).
Proof.
  unfold restrict_dates, in_date_range, date_leb.
  destruct date_range as [[|s [|e [|x l]]]|];
    try (split; [intros Hin; split; [assumption|]; intros ? ? Heq; discriminate
                | tauto]).
  rewrite filter_In, andb_true_iff, !Z.leb_le. split.
  - intros [Hin Hb]. split; [assumption|].
    intros s' e' Heq. injection Heq as <- <-. exact Hb.
  - intros [Hin Hw]. split; [assumption|]. now apply Hw.
Qed.

Lemma restrict_unconstrained (col : record -> string)
    (sel : option (list string)) (df : DataFrame) :
  unconstrained sel -> restrict col sel df = df.
Proof. intros [-> | ->]; reflexivity. Qed.

End FilterFacts.

(** C3.  A record is in the output of [filter_data] exactly when it is a
    record of the input and meets every applied constraint: its field value
    is a member of each categorical selection that is present and not empty,
    and its order date lies between the two bounds of a two-element date
    range, bounds included.  Absent or empty parameters constrain nothing. *)
Theorem filter_data_membership (df : DataFrame)
    (regions segments categories sub_categories : option (list string))
    (date_range : option (list date)) (r : record) :
  In r (filter_data df regions segments categories sub_categories date_range)
  <->
  In r df
  /\ within regions (region r)
  /\ within segments (segment r)
  /\ within categories (category r)
  /\ within sub_categories (sub_category r)
  /\ in_date_range date_range (order_date r).
Proof.
  unfold filter_data.
  rewrite In_restrict_dates, !In_restrict. tauto.
Qed.

(** The bounds of the date range are included: a record ordered on the start
    date itself, or on the end date itself, is kept. *)
Lemma filter_data_bounds_inclusive (df : DataFrame) (start_date end_date : date)
    (r : record) :
  In r df ->
  (to_ordinal start_date <= to_ordinal end_date)%Z ->
  order_date r = start_date \/ order_date r = end_date ->
  In r (filter_data df None None None None (Some [start_date; end_date])).
Proof.
  intros Hin Hle Hd. unfold filter_data, restrict.
  apply In_restrict_dates. split; [exact Hin|].
  intros s e Heq. injection Heq as <- <-. destruct Hd as [-> | ->]; lia.
Qed.

(** C4.  With no constraint at all (every categorical selection absent or
    empty, no date range) [filter_data] returns the record set it was given,
    same rows and same count. *)
Theorem filter_data_no_constraints (df : DataFrame)
    (regions segments categories sub_categories : option (list string)) :
  unconstrained regions ->
  unconstrained segments ->
  unconstrained categories ->
  unconstrained sub_categories ->
  filter_data df regions segments categories sub_categories None = df
  /\ List.length
       (filter_data df regions segments categories sub_categories None)
     = List.length df.
Proof.
  intros Hr Hs Hc Hsc.
  assert (E : filter_data df regions segments categories sub_categories None
              = df).
  { unfold filter_data, restrict_dates.
    now rewrite !restrict_unconstrained. }
  split; [exact E | now rewrite E].
Qed.

(** ** Keys: the order laws hold for strings and for tuples *)

Lemma ascii_compare_refl (a : ascii) : Ascii.compare a a = Eq.
Proof. unfold Ascii.compare. apply N.compare_refl. Qed.

Lemma ascii_compare_Lt_trans (a b c : ascii) :
  Ascii.compare a b = Lt -> Ascii.compare b c = Lt -> Ascii.compare a c = Lt.
Proof.
  unfold Ascii.compare. rewrite !N.compare_lt_iff. apply N.lt_trans.
Qed.

Lemma string_leb_trans (s1 s2 s3 : string) :
  String.leb s1 s2 = true -> String.leb s2 s3 = true ->
  String.leb s1 s3 = true.
Proof.
  unfold String.leb. revert s2 s3.
  induction s1 as [|a s1 IH]; intros [|b s2] [|c s3]; simpl;
    try reflexivity; try discriminate.
  destruct (Ascii.compare a b) eqn:Eab; destruct (Ascii.compare b c) eqn:Ebc;
    try discriminate.
  - apply Ascii.compare_eq_iff in Eab, Ebc. subst.
    rewrite ascii_compare_refl. apply IH.
  - apply Ascii.compare_eq_iff in Eab. subst. now rewrite Ebc.
  - apply Ascii.compare_eq_iff in Ebc. subst. now rewrite Eab.
  - now rewrite (ascii_compare_Lt_trans _ _ _ Eab Ebc).
Qed.

#[export] Instance string_KeyLaws : KeyLaws string.
Proof.
  split; simpl.
  - apply String.eqb_eq.
  - apply String.leb_total.
  - apply string_leb_trans.
  - apply String.leb_antisym.
Qed.

Section KeyFacts.
Context {K : Type} `{KeyLaws K}.

Lemma key_eqb_refl (a : K) : key_eqb a a = true.
Proof. now apply key_eqb_eq. Qed.

Lemma key_eqb_neq (a b : K) : key_eqb a b = false <-> a <> b.
Proof.
  rewrite <- key_eqb_eq. destruct (key_eqb a b); split; congruence.
Qed.

Lemma key_eqb_sym (a b : K) : key_eqb a b = key_eqb b a.
Proof.
  destruct (key_eqb a b) eqn:E.
  - apply key_eqb_eq in E. subst. symmetry. apply key_eqb_refl.
  - apply key_eqb_neq in E. symmetry. apply key_eqb_neq. congruence.
Qed.

Lemma key_leb_refl (a : K) : key_leb a a = true.
Proof. now destruct (key_leb_total a a). Qed.

Lemma key_eq_dec (a b : K) : {a = b} + {a <> b}.
Proof.
  destruct (key_eqb a b) eqn:E.
  - left. now apply key_eqb_eq.
  - right. now apply key_eqb_neq.
Defined.
End KeyFacts.

(** Splits on whether two keys are equal, and rewrites the test away. *)
Ltac key_cases a b :=
  let E := fresh "E" in
  destruct (key_eqb a b) eqn:E;
  [ apply key_eqb_eq in E; try subst | apply key_eqb_neq in E ].

#[export] Instance pair_KeyLaws {A B : Type} `{KeyLaws A} `{KeyLaws B}
  : KeyLaws (A * B).
Proof.
  split.
  - intros [a1 b1] [a2 b2]. simpl. rewrite andb_true_iff, !key_eqb_eq.
    split; [intros [-> ->]; reflexivity | intros E; now inversion E].
  - intros [a1 b1] [a2 b2]. simpl. rewrite (key_eqb_sym a2 a1).
    destruct (key_eqb a1 a2); apply key_leb_total.
  - intros [a1 b1] [a2 b2] [a3 b3]. simpl.
    key_cases a1 a2; key_cases a2 a3; intros H12 H23.
    + now apply key_leb_trans with b2.
    + exact H23.
    + apply key_eqb_neq in E. rewrite E. exact H12.
    + key_cases a1 a3.
      * destruct E. now apply key_leb_antisym.
      * now apply key_leb_trans with a2.
  - intros [a1 b1] [a2 b2]. simpl. rewrite (key_eqb_sym a2 a1).
    key_cases a1 a2; intros H12 H21.
    + f_equal. now apply key_leb_antisym.
    + destruct E. now apply key_leb_antisym.
Qed.

(** ** Sums of rationals *)

Lemma Qsum_app (l1 l2 : list Q) : Qsum (l1 ++ l2) == Qsum l1 + Qsum l2.
Proof.
  induction l1 as [|x l1 IH]; simpl.
  - ring.
  - rewrite IH. ring.
Qed.

Lemma Qsum_Permutation (l1 l2 : list Q) :
  Permutation l1 l2 -> Qsum l1 == Qsum l2.
Proof.
  induction 1 as [| x l1 l2 _ IH | x y l | l1 l2 l3 _ IH1 _ IH2]; simpl.
  - reflexivity.
  - now rewrite IH.
  - ring.
  - now rewrite IH1.
Qed.

Lemma Qsum_map_const0 {A : Type} (l : list A) :
  Qsum (map (fun _ => 0) l) == 0.
Proof.
  induction l as [|x l IH]; simpl; [reflexivity | rewrite IH; ring].
Qed.

Lemma Qsum_map_scale {A : Type} (f : A -> Q) (c : Q) (l : list A) :
  Qsum (map (fun x => f x * c) l) == Qsum (map f l) * c.
Proof.
  induction l as [|x l IH]; simpl; [ring | rewrite IH; ring].
Qed.

(** Splitting a sum along two tests that never hold together. *)
Lemma Qsum_filter_disjoint {A : Type} (f : A -> Q) (p q : A -> bool)
    (l : list A) :
  (forall x, In x l -> p x = true -> q x = false) ->
  Qsum (map f (filter (fun x => p x || q x) l))
  == Qsum (map f (filter p l)) + Qsum (map f (filter q l)).
Proof.
  induction l as [|x l IH]; intros Hdis; simpl.
  - ring.
  - assert (IH' := IH (fun y Hy => Hdis y (or_intror Hy))).
    destruct (p x) eqn:Hp; simpl.
    + rewrite (Hdis x (or_introl eq_refl) Hp). simpl. rewrite IH'. ring.
    + destruct (q x); simpl; rewrite IH'; ring.
Qed.

Lemma filter_all {A : Type} (p : A -> bool) (l : list A) :
  (forall x, In x l -> p x = true) -> filter p l = l.
Proof.
  induction l as [|x l IH]; intros Hall; simpl.
  - reflexivity.
  - rewrite (Hall x (or_introl eq_refl)). f_equal.
    apply IH. intros y Hy. apply Hall. now right.
Qed.

(** ** groupby: keys and group sums *)

Section GroupFacts.
Context {K : Type} `{KeyLaws K}.

Lemma In_unique (x : K) (l : list K) : In x (unique l) <-> In x l.
Proof.
  induction l as [|y l IH]; simpl.
  - tauto.
  - rewrite filter_In, IH, negb_true_iff, key_eqb_neq.
    destruct (key_eq_dec y x) as [-> | Hne]; [tauto|].
    split; [tauto|]. intros [Heq | Hin]; [contradiction | tauto].
Qed.

Lemma NoDup_unique (l : list K) : NoDup (unique l).
Proof.
  induction l as [|y l IH]; simpl.
  - constructor.
  - constructor.
    + rewrite filter_In, negb_true_iff, key_eqb_neq. tauto.
    + now apply NoDup_filter.
Qed.

Lemma unique_nil_iff (l : list K) : unique l = [] <-> l = [].
Proof. destruct l; simpl; split; congruence. Qed.

Lemma insert_key_Permutation (x : K) (l : list K) :
  Permutation (insert_key x l) (x :: l).
Proof.
  induction l as [|y l IH]; simpl.
  - reflexivity.
  - destruct (key_leb x y); [reflexivity|].
    rewrite IH. apply perm_swap.
Qed.

Lemma sort_keys_Permutation (l : list K) : Permutation (sort_keys l) l.
Proof.
  induction l as [|x l IH]; simpl.
  - reflexivity.
  - rewrite insert_key_Permutation. now constructor.
Qed.

Lemma In_group_keys (by_ : record -> K) (df : DataFrame) (k : K) :
  In k (group_keys by_ df) <-> In k (map by_ df).
Proof.
  unfold group_keys. rewrite <- (In_unique k (map by_ df)).
  split; apply Permutation_in.
  - apply sort_keys_Permutation.
  - symmetry. apply sort_keys_Permutation.
Qed.

Lemma NoDup_group_keys (by_ : record -> K) (df : DataFrame) :
  NoDup (group_keys by_ df).
Proof.
  unfold group_keys.
  eapply Permutation_NoDup; [symmetry; apply sort_keys_Permutation|].
  apply NoDup_unique.
Qed.

Lemma length_group_keys (by_ : record -> K) (df : DataFrame) :
  List.length (group_keys by_ df) = List.length (unique (map by_ df)).
Proof. apply Permutation_length, sort_keys_Permutation. Qed.

Lemma group_keys_nil_iff (by_ : record -> K) (df : DataFrame) :
  group_keys by_ df = [] <-> df = [].
Proof.
  split.
  - intros E. assert (L := length_group_keys by_ df). rewrite E in L.
    destruct df; [reflexivity | discriminate L].
  - now intros ->.
Qed.

(** The sums of the groups of distinct keys add up to the sum over the
    rows whose key is one of them. *)
Lemma group_sums_total (by_ : record -> K) (col : record -> Q)
    (df : DataFrame) (keys : list K) :
  NoDup keys ->
  Qsum (map (fun k => Qsum (map col (group by_ k df))) keys)
  == Qsum (map col (filter (fun r => existsb (key_eqb (by_ r)) keys) df)).
Proof.
  induction 1 as [|k keys Hnotin _ IH]; simpl.
  - replace (filter (fun _ : record => false) df) with (@nil record);
      [reflexivity|].
    induction df; simpl; auto.
  - rewrite IH, Qsum_filter_disjoint; [reflexivity|].
    intros r _ Ek. apply key_eqb_eq in Ek. subst k.
    destruct (existsb (key_eqb (by_ r)) keys) eqn:Ex; [|reflexivity].
    apply existsb_exists in Ex. destruct Ex as [k' [Hin Ek']].
    apply key_eqb_eq in Ek'. now subst k'.
Qed.

Theorem groupby_sum_total (by_ : record -> K) (col : record -> Q)
    (df : DataFrame) :
  Qsum (map snd (groupby_sum by_ col df)) == Qsum (map col df).
Proof.
  unfold groupby_sum. rewrite map_map. simpl.
  rewrite group_sums_total by apply NoDup_group_keys.
  rewrite filter_all; [reflexivity|].
  intros r Hr. apply existsb_exists. exists (by_ r). split.
  - apply In_group_keys. now apply in_map.
  - apply key_eqb_refl.
Qed.
End GroupFacts.

(** ** Sorted lists and the order of their elements *)

Lemma StronglySorted_snoc {A : Type} (R : A -> A -> Prop) (l : list A) (x : A) :
  StronglySorted R l -> Forall (fun y => R y x) l ->
  StronglySorted R (l ++ [x]).
Proof.
  induction 1 as [|a l Hs IH Ha]; intros Hx; simpl.
  - repeat constructor.
  - inversion Hx as [|? ? Hax Hlx]; subst. constructor.
    + now apply IH.
    + apply Forall_app. split; [assumption | now constructor].
Qed.

Section SortedFacts.
Context {A : Type} (R : A -> A -> Prop).

Lemma StronglySorted_rev (l : list A) :
  StronglySorted R l -> StronglySorted (fun x y => R y x) (rev l).
Proof.
  induction 1 as [|a l Hs IH Ha]; simpl.
  - constructor.
  - apply StronglySorted_snoc; [assumption | now apply Forall_rev].
Qed.

Lemma StronglySorted_filter (p : A -> bool) (l : list A) :
  StronglySorted R l -> StronglySorted R (filter p l).
Proof.
  induction 1 as [|a l Hs IH Ha]; simpl.
  - constructor.
  - destruct (p a); [|assumption]. constructor; [assumption|].
    rewrite Forall_forall in *. intros y Hy.
    apply Ha. now apply filter_In in Hy.
Qed.

Lemma StronglySorted_precedes (l : list A) (x y : A) :
  StronglySorted R l -> precedes x y l -> R x y.
Proof.
  intros Hs (l1 & l2 & l3 & ->).
  induction l1 as [|a l1 IH]; simpl in Hs; inversion Hs as [|? ? Hs' Hall];
    subst.
  - rewrite Forall_forall in Hall. apply Hall, in_elt.
  - now apply IH.
Qed.

Lemma precedes_filter (p : A -> bool) (l : list A) (x y : A) :
  precedes x y l -> p x = true -> p y = true -> precedes x y (filter p l).
Proof.
  intros (l1 & l2 & l3 & ->) Hx Hy.
  exists (filter p l1), (filter p l2), (filter p l3).
  rewrite filter_app. simpl. rewrite Hx, filter_app. simpl. now rewrite Hy.
Qed.

Lemma precedes_In (l : list A) (x y : A) :
  precedes x y l -> In x l /\ In y l.
Proof.
  intros (l1 & l2 & l3 & ->). split.
  - apply in_elt.
  - rewrite app_comm_cons, app_assoc. apply in_elt.
Qed.
End SortedFacts.

(** ** sort_values *)

Section SortFacts.
Context {K : Type} `{Key K}.

Lemma insert_asc_Permutation (x : K * Q) (l : list (K * Q)) :
  Permutation (insert_asc x l) (x :: l).
Proof.
  induction l as [|y l IH]; simpl.
  - reflexivity.
  - destruct (Qle_bool (snd x) (snd y)); [reflexivity|].
    rewrite IH. apply perm_swap.
Qed.

Lemma argsort_asc_Permutation (l : list (K * Q)) :
  Permutation (argsort_asc l) l.
Proof.
  induction l as [|x l IH]; simpl.
  - reflexivity.
  - rewrite insert_asc_Permutation. now constructor.
Qed.

Lemma stable_desc_Permutation (t : list (K * Q)) :
  Permutation (stable_desc t) t.
Proof.
  unfold stable_desc.
  rewrite <- Permutation_rev, argsort_asc_Permutation.
  symmetry. apply Permutation_rev.
Qed.

Lemma backward_desc_Permutation (t : list (K * Q)) :
  Permutation (backward_desc t) t.
Proof.
  unfold backward_desc.
  rewrite <- Permutation_rev. apply argsort_asc_Permutation.
Qed.

Lemma insert_asc_sorted (x : K * Q) (l : list (K * Q)) :
  StronglySorted sales_le l -> StronglySorted sales_le (insert_asc x l).
Proof.
  induction 1 as [|y l Hs IH Hy]; simpl.
  - repeat constructor.
  - destruct (Qle_bool (snd x) (snd y)) eqn:E.
    + apply Qle_bool_iff in E. constructor; [now constructor|].
      constructor; [exact E|].
      eapply Forall_impl; [|exact Hy].
      intros z Hz. unfold sales_le in *. now apply Qle_trans with (snd y).
    + constructor; [assumption|].
      eapply Permutation_Forall;
        [symmetry; apply insert_asc_Permutation|].
      constructor; [|assumption].
      unfold sales_le. apply Qlt_le_weak, Qnot_le_lt.
      intros Hle. apply Qle_bool_iff in Hle. congruence.
Qed.

Lemma argsort_asc_sorted (l : list (K * Q)) :
  StronglySorted sales_le (argsort_asc l).
Proof.
  induction l as [|x l IH]; simpl.
  - constructor.
  - now apply insert_asc_sorted.
Qed.

Lemma stable_desc_sorted (t : list (K * Q)) :
  StronglySorted sales_ge (stable_desc t).
Proof.
  unfold stable_desc.
  apply (StronglySorted_rev sales_le), argsort_asc_sorted.
Qed.

Lemma backward_desc_sorted (t : list (K * Q)) :
  StronglySorted sales_ge (backward_desc t).
Proof.
  unfold backward_desc.
  apply (StronglySorted_rev sales_le), argsort_asc_sorted.
Qed.

(** Stability: among the rows of one Sales value the order is kept. *)
Lemma insert_asc_stable (v : Q) (x : K * Q) (l : list (K * Q)) :
  filter (with_sales v) (insert_asc x l) = filter (with_sales v) (x :: l).
Proof.
  induction l as [|y l IH]; [reflexivity|].
  simpl insert_asc.
  destruct (Qle_bool (snd x) (snd y)) eqn:E; [reflexivity|].
  change (filter (with_sales v) (y :: insert_asc x l))
    with (if with_sales v y then y :: filter (with_sales v) (insert_asc x l)
          else filter (with_sales v) (insert_asc x l)).
  rewrite IH. simpl. unfold with_sales.
  destruct (Qeq_bool (snd x) v) eqn:Ex; destruct (Qeq_bool (snd y) v) eqn:Ey;
    try reflexivity.
  apply Qeq_bool_iff in Ex, Ey.
  assert (Hle : snd x <= snd y) by (rewrite Ex, Ey; apply Qle_refl).
  apply Qle_bool_iff in Hle. congruence.
Qed.

Lemma argsort_asc_stable (v : Q) (l : list (K * Q)) :
  filter (with_sales v) (argsort_asc l) = filter (with_sales v) l.
Proof.
  induction l as [|x l IH]; [reflexivity|].
  simpl argsort_asc. rewrite insert_asc_stable. simpl. now rewrite IH.
Qed.

Lemma stable_desc_stable (v : Q) (t : list (K * Q)) :
  filter (with_sales v) (stable_desc t) = filter (with_sales v) t.
Proof.
  unfold stable_desc.
  now rewrite filter_rev, argsort_asc_stable, filter_rev, rev_involutive.
Qed.

(** The sorts return tables that agree when they are given tables that
    agree. *)
Lemma same_table_refl (t : list (K * Q)) : same_table t t.
Proof.
  induction t; constructor; [split; reflexivity | assumption].
Qed.

Lemma insert_asc_same (x x' : K * Q) (l l' : list (K * Q)) :
  fst x = fst x' /\ snd x == snd x' -> same_table l l' ->
  same_table (insert_asc x l) (insert_asc x' l').
Proof.
  intros Hx Hl. induction Hl as [|y y' l l' Hy Hl IH]; simpl.
  - now repeat constructor.
  - assert (E : Qle_bool (snd x) (snd y) = Qle_bool (snd x') (snd y')).
    { apply eq_true_iff_eq. rewrite !Qle_bool_iff.
      destruct Hx as [_ Hx], Hy as [_ Hy]. now rewrite Hx, Hy. }
    rewrite E. destruct (Qle_bool (snd x') (snd y')).
    + constructor; [exact Hx|]. now constructor.
    + now constructor.
Qed.

Lemma argsort_asc_same (l l' : list (K * Q)) :
  same_table l l' -> same_table (argsort_asc l) (argsort_asc l').
Proof.
  induction 1 as [|x x' l l' Hx Hl IH]; simpl.
  - constructor.
  - now apply insert_asc_same.
Qed.

Lemma rev_same (l l' : list (K * Q)) :
  same_table l l' -> same_table (rev l) (rev l').
Proof.
  induction 1 as [|x x' l l' Hx Hl IH]; simpl.
  - constructor.
  - apply Forall2_app; [exact IH | now repeat constructor].
Qed.

Lemma stable_desc_same (t t' : list (K * Q)) :
  same_table t t' -> same_table (stable_desc t) (stable_desc t').
Proof.
  intros Ht. unfold stable_desc.
  now apply rev_same, argsort_asc_same, rev_same.
Qed.

Lemma backward_desc_same (t t' : list (K * Q)) :
  same_table t t' -> same_table (backward_desc t) (backward_desc t').
Proof.
  intros Ht. unfold backward_desc.
  now apply rev_same, argsort_asc_same.
Qed.
End SortFacts.

(** Both sorts are sorting routines in the sense of [SortLaws]. *)
Lemma stable_sort_laws : SortLaws (S := stable_sort).
Proof.
  split; intros K t; simpl.
  - apply stable_desc_Permutation.
  - apply stable_desc_sorted.
  - apply stable_desc_same.
Qed.

Lemma backward_sort_laws : SortLaws (S := backward_sort).
Proof.
  split; intros K t; simpl.
  - apply backward_desc_Permutation.
  - apply backward_desc_sorted.
  - apply backward_desc_same.
Qed.

(** ** The grouped table comes in ascending key order *)

Lemma StronglySorted_map {A B : Type} (R : B -> B -> Prop) (f : A -> B)
    (l : list A) :
  StronglySorted (fun x y => R (f x) (f y)) l -> StronglySorted R (map f l).
Proof.
  induction 1 as [|a l Hs IH Ha]; simpl; constructor.
  - assumption.
  - rewrite Forall_map. exact Ha.
Qed.

Section KeyOrderFacts.
Context {K : Type} `{KeyLaws K}.

Lemma insert_key_sorted (x : K) (l : list K) :
  StronglySorted key_le l -> StronglySorted key_le (insert_key x l).
Proof.
  induction 1 as [|y l Hs IH Hy]; simpl.
  - repeat constructor.
  - destruct (key_leb x y) eqn:E.
    + constructor; [now constructor|].
      constructor; [exact E|].
      eapply Forall_impl; [|exact Hy].
      intros z Hz. unfold key_le in *. now apply key_leb_trans with y.
    + constructor; [assumption|].
      eapply Permutation_Forall;
        [symmetry; apply insert_key_Permutation|].
      constructor; [|assumption].
      unfold key_le. destruct (key_leb_total x y); congruence.
Qed.

Lemma sort_keys_sorted (l : list K) : StronglySorted key_le (sort_keys l).
Proof.
  induction l as [|x l IH]; simpl.
  - constructor.
  - now apply insert_key_sorted.
Qed.

Lemma sorted_NoDup_strict (l : list K) :
  StronglySorted key_le l -> NoDup l -> StronglySorted key_lt l.
Proof.
  induction 1 as [|a l Hs IH Ha]; intros Hnd.
  - constructor.
  - inversion Hnd as [|? ? Hnotin Hnd']; subst. constructor.
    + now apply IH.
    + rewrite Forall_forall in *. intros b Hb. split.
      * now apply Ha.
      * intros ->. contradiction.
Qed.

Lemma group_keys_ascending (by_ : record -> K) (df : DataFrame) :
  StronglySorted key_lt (group_keys by_ df).
Proof.
  apply sorted_NoDup_strict.
  - apply sort_keys_sorted.
  - apply NoDup_group_keys.
Qed.

Lemma groupby_sum_ascending (by_ : record -> K) (col : record -> Q)
    (df : DataFrame) :
  StronglySorted row_key_lt (groupby_sum by_ col df).
Proof.
  unfold groupby_sum. apply StronglySorted_map. simpl.
  apply group_keys_ascending.
Qed.

(** With the stable sort, rows of equal Sales of a grouped table stand by
    ascending key; with the backward sort, by descending key. *)
Lemma stable_groupby_order (by_ : record -> K) (col : record -> Q)
    (df : DataFrame) (x y : K * Q) :
  precedes x y (stable_desc (groupby_sum by_ col df)) ->
  snd x == snd y -> key_lt (fst x) (fst y).
Proof.
  intros Hp Heq.
  apply (precedes_filter (with_sales (snd x))) in Hp.
  - rewrite stable_desc_stable in Hp.
    refine (StronglySorted_precedes row_key_lt _ x y _ Hp).
    apply StronglySorted_filter, groupby_sum_ascending.
  - apply Qeq_bool_iff. reflexivity.
  - apply Qeq_bool_iff. now symmetry.
Qed.

Lemma backward_groupby_order (by_ : record -> K) (col : record -> Q)
    (df : DataFrame) (x y : K * Q) :
  precedes x y (backward_desc (groupby_sum by_ col df)) ->
  snd x == snd y -> key_lt (fst y) (fst x).
Proof.
  intros Hp Heq.
  apply (precedes_filter (with_sales (snd x))) in Hp.
  - unfold backward_desc in Hp.
    rewrite filter_rev, argsort_asc_stable in Hp.
    refine (StronglySorted_precedes
              (fun a b : K * Q => row_key_lt b a) _ x y _ Hp).
    apply (StronglySorted_rev row_key_lt).
    apply StronglySorted_filter, groupby_sum_ascending.
  - apply Qeq_bool_iff. reflexivity.
  - apply Qeq_bool_iff. now symmetry.
Qed.
End KeyOrderFacts.

(** Whatever the sorting routine, a row stands before the rows of smaller
    Sales. *)
Lemma sorted_by_sales {S : SortKind} {L : SortLaws} {K : Type}
    (t : list (K * Q)) (x y : K * Q) :
  precedes x y (sort_values_desc t) -> snd y <= snd x.
Proof.
  intros Hp.
  exact (StronglySorted_precedes sales_ge _ x y (sort_values_desc_sorted t)
           Hp).
Qed.

(** ** Aggregates: group sums and totals *)

(** C5.  The Sales values of the groups add up to the total sales of the
    input, in each of the category table, the (category, sub-category) table,
    the regional table and the time series. *)
Theorem group_sales_add_up_to_total {S : SortKind} {L : SortLaws}
    (df : DataFrame) :
  let total := total_sales (get_kpi_metrics df) in
  Qsum (map snd (fst (get_category_performance df))) == total
  /\ Qsum (map snd (snd (get_category_performance df))) == total
  /\ Qsum (map snd (get_regional_performance df)) == total
  /\ Qsum (map snd (get_time_series_data df)) == total.
Proof.
  unfold get_category_performance, get_regional_performance,
    get_time_series_data. simpl.
  repeat split.
  1-3: rewrite (Qsum_Permutation _ _
                  (Permutation_map snd (sort_values_desc_Permutation _))).
  all: apply groupby_sum_total.
Qed.

(** The witness of C5: the stable sort is a sorting routine. *)
Lemma group_sales_add_up_to_total_witness :
  SortLaws (S := stable_sort)
  /\ Qsum (map snd (fst (get_category_performance (S := stable_sort)
                           sample)))
     == total_sales (get_kpi_metrics sample).
Proof.
  split; [exact stable_sort_laws|].
  exact (proj1 (group_sales_add_up_to_total (L := stable_sort_laws) sample)).
Defined.

(** ** get_category_performance: order of the rows *)

Local Open Scope string_scope.

(** The grouped table does not depend on the order of the input rows, so no
    sort of it can recover that order. *)
Lemma tie_rows_grouped_blind :
  groupby_sum category sales tie_rows
  = groupby_sum category sales (rev tie_rows).
Proof. reflexivity. Qed.

Lemma precedes_two_swapped {A : Type} (a b : A) :
  a <> b -> ~ precedes a b [b; a].
Proof.
  intros Hne (l1 & l2 & l3 & E).
  destruct l1 as [|x l1]; simpl in E.
  - injection E as E _. now symmetry in E.
  - apply (f_equal (@List.length A)) in E. simpl in E.
    rewrite !length_app in E. simpl in E. rewrite length_app in E.
    simpl in E. lia.
Qed.

(** C8, as stated, fails, whatever the sorting routine.  Technology and
    Furniture have the same Sales; the frames [tie_rows] and [rev tie_rows]
    meet them in opposite orders and have the same grouped table, so they
    get the same category table, which is in the order of first appearance
    of at most one of them. *)
Lemma category_ties_not_by_first_appearance :
  unique (map category tie_rows) = ["Technology"; "Furniture"]
  /\ unique (map category (rev tie_rows)) = ["Furniture"; "Technology"]
  /\ forall (S : SortKind) (L : SortLaws),
       ~ (ties_by_first_appearance category tie_rows
            (fst (get_category_performance tie_rows))
          /\ ties_by_first_appearance category (rev tie_rows)
               (fst (get_category_performance (rev tie_rows)))).
Proof.
  split; [reflexivity|]. split; [reflexivity|].
  intros S L [H1 H2].
  unfold get_category_performance in H1, H2. cbn [fst] in H1, H2.
  rewrite <- tie_rows_grouped_blind in H2.
  assert (Hg : groupby_sum category sales tie_rows
               = [("Furniture", 100); ("Technology", 100)]) by reflexivity.
  rewrite Hg in H1, H2.
  assert (Hp := sort_values_desc_Permutation
                  [("Furniture", 100); ("Technology", 100)]).
  symmetry in Hp. apply Permutation_length_2_inv in Hp.
  destruct Hp as [E | E]; rewrite E in H1, H2.
  - apply (precedes_two_swapped "Furniture" "Technology");
      [discriminate|].
    apply (H1 ("Furniture", 100) ("Technology", 100)).
    + exists [], [], []. reflexivity.
    + reflexivity.
  - apply (precedes_two_swapped "Technology" "Furniture");
      [discriminate|].
    apply (H2 ("Technology", 100) ("Furniture", 100)).
    + exists [], [], []. reflexivity.
    + reflexivity.
Qed.

(** Which of two rows of equal Sales stands first depends on the sorting
    routine: the stable sort and the backward sort, both sorting routines,
    differ on [tie_rows] and on [four_categories]. *)
Example tie_order_depends_on_sort :
  fst (get_category_performance (S := stable_sort) tie_rows)
  = [("Furniture", 100); ("Technology", 100)]
  /\ fst (get_category_performance (S := backward_sort) tie_rows)
     = [("Technology", 100); ("Furniture", 100)]
  /\ map fst (fst (get_category_performance (S := stable_sort)
                     four_categories))
     = ["Supplies"; "Technology"; "Furniture"; "Office"]
  /\ map fst (fst (get_category_performance (S := backward_sort)
                     four_categories))
     = ["Technology"; "Supplies"; "Office"; "Furniture"].
Proof. repeat split. Qed.

(** C8, amended.  Both tables of [get_category_performance] hold the rows of
    the grouped table, ordered by Sales from the largest down.  Nothing is
    said of the order of rows of equal Sales. *)
Theorem category_performance_order {S : SortKind} {L : SortLaws}
    (df : DataFrame) :
  let category_sales := fst (get_category_performance df) in
  let subcategory_sales := snd (get_category_performance df) in
  Permutation category_sales (groupby_sum category sales df)
  /\ Permutation subcategory_sales
       (groupby_sum (fun r => (category r, sub_category r)) sales df)
  /\ (forall x y, precedes x y category_sales -> snd y <= snd x)
  /\ (forall x y, precedes x y subcategory_sales -> snd y <= snd x).
Proof.
  simpl. split; [|split; [|split]].
  1-2: apply sort_values_desc_Permutation.
  all: intros x y Hp; exact (sorted_by_sales _ x y Hp).
Qed.

(** The witness of C8: the backward sort on the scenario. *)
Lemma category_performance_order_witness :
  SortLaws (S := backward_sort)
  /\ fst (get_category_performance (S := backward_sort) sample)
     = [("Technology", 200); ("Furniture", 150)]
  /\ (forall x y,
        precedes x y (fst (get_category_performance (S := backward_sort)
                             sample)) ->
        snd y <= snd x).
Proof.
  split; [exact backward_sort_laws|]. split; [reflexivity|].
  exact (proj1 (proj2 (proj2 (category_performance_order
                                (L := backward_sort_laws) sample)))).
Defined.

(** ** get_kpi_metrics *)

Lemma nunique_pos (l : list string) : l <> [] -> (0 < nunique l)%nat.
Proof.
  unfold nunique. destruct l as [|x l]; [congruence|].
  intros _. simpl. lia.
Qed.

(** [nunique] counts the distinct values of the column. *)
Lemma nunique_counts_distinct (l : list string) :
  exists ids : list string,
    NoDup ids /\ (forall i, In i ids <-> In i l)
    /\ nunique l = List.length ids.
Proof.
  exists (unique l). split; [apply NoDup_unique|].
  split; [intros i; apply In_unique | reflexivity].
Qed.

Lemma avg_order_value_no_orders (df : DataFrame) :
  total_orders (get_kpi_metrics df) = 0%nat ->
  avg_order_value (get_kpi_metrics df) == 0.
Proof.
  simpl. intros ->. reflexivity.
Qed.

(** C6.  On a non-empty record subset [avg_order_value] is [total_sales]
    divided by [total_orders], and [total_orders] is the number of distinct
    order ids; with zero orders [avg_order_value] is 0. *)
Theorem avg_order_value_is_sales_per_order (df : DataFrame) :
  df <> [] ->
  let k := get_kpi_metrics df in
  (exists ids : list string,
      NoDup ids /\ (forall i, In i ids <-> In i (map order_id df))
      /\ total_orders k = List.length ids)
  /\ (0 < total_orders k)%nat
  /\ avg_order_value k == total_sales k / Qof_nat (total_orders k)
  /\ (forall df' : DataFrame,
        total_orders (get_kpi_metrics df') = 0%nat ->
        avg_order_value (get_kpi_metrics df') == 0).
Proof.
  intros Hne k.
  assert (Hpos : (0 < nunique (map order_id df))%nat).
  { apply nunique_pos. destruct df; [congruence | discriminate]. }
  split; [apply nunique_counts_distinct|].
  split; [exact Hpos|].
  split; [|apply avg_order_value_no_orders].
  subst k. simpl. apply Nat.ltb_lt in Hpos. rewrite Hpos. reflexivity.
Qed.

(** The witness of C6: the scenario. *)
Lemma avg_order_value_is_sales_per_order_witness :
  let df := scenario ("Furniture", "Chairs", "P1")
              ("Technology", "Phones", "P2") ("Furniture", "Tables", "P3") in
  df <> []
  /\ avg_order_value (get_kpi_metrics df)
     == total_sales (get_kpi_metrics df)
        / Qof_nat (total_orders (get_kpi_metrics df)).
Proof.
  intros df.
  assert (Hne : df <> []) by discriminate.
  split; [exact Hne|].
  exact (proj1 (proj2 (proj2 (avg_order_value_is_sales_per_order df Hne)))).
Defined.

(** C9.  On the three records of the scenario (order A with two lines of 100
    and 50, shipped after two days, and order B of 200, shipped after one)
    [get_kpi_metrics] returns total sales 350, 2 orders, an average order
    value of 175 and 5/3 average shipping days; filtering by region East
    keeps exactly the record of order B, with total sales 200 and 1 order. *)
Theorem scenario_kpis (x y z : string * string * string) :
  let df := scenario x y z in
  let k := get_kpi_metrics df in
  let east := filter_data df (Some ["East"]) None None None None in
  total_sales k == 350
  /\ total_orders k = 2%nat
  /\ avg_order_value k == 175
  /\ feq (avg_shipping_days k) (5 # 3)
  /\ east = load_data [order_B y]
  /\ total_sales (get_kpi_metrics east) == 200
  /\ total_orders (get_kpi_metrics east) = 1%nat.
Proof.
  repeat split; vm_compute; reflexivity.
Qed.

(** The witness of C4: the scenario, filtered with selections that are
    absent or empty. *)
Lemma filter_data_no_constraints_witness :
  let df := scenario ("Furniture", "Chairs", "P1")
              ("Technology", "Phones", "P2") ("Furniture", "Tables", "P3") in
  unconstrained None /\ unconstrained (Some [])
  /\ filter_data df None (Some []) None (Some []) None = df.
Proof.
  intros df.
  assert (Hn : unconstrained None) by (left; reflexivity).
  assert (He : unconstrained (Some [])) by (right; reflexivity).
  split; [exact Hn|]. split; [exact He|].
  exact (proj1 (filter_data_no_constraints df None (Some []) None (Some [])
                  Hn He Hn He)).
Defined.

(** ** The reducers on an empty subset *)

(** Five of the six reducers return an empty table, or zero KPIs with an
    undefined mean, on the empty subset. *)
Lemma sort_values_desc_nil {S : SortKind} {L : SortLaws} {K : Type} :
  sort_values_desc (@nil (K * Q)) = [].
Proof.
  apply Permutation_nil. symmetry. apply sort_values_desc_Permutation.
Qed.

Lemma reducers_on_empty_subset {S : SortKind} {L : SortLaws} :
  get_kpi_metrics []
  = {| total_sales := 0; total_orders := 0; avg_order_value := 0;
       avg_shipping_days := NaN |}
  /\ get_category_performance [] = ([], [])
  /\ get_regional_performance [] = []
  /\ get_time_series_data [] = []
  /\ get_shipping_analysis [] = [].
Proof.
  unfold get_category_performance, get_regional_performance.
  cbn [groupby_sum group_keys map unique sort_keys fold_right].
  rewrite !sort_values_desc_nil. repeat split.
Qed.

(** C1 fails on the sixth: on the empty subset the segment table has no
    row, and [100 / len(segment_share)] raises ZeroDivisionError. *)
Theorem identify_underperforming_segments_empty_raises {R : Rounding} :
  identify_underperforming_segments [] = Raise ZeroDivisionError.
Proof. reflexivity. Qed.

(** ** identify_underperforming_segments *)

Lemma identify_underperforming_segments_unfold {R : Rounding}
    (df : DataFrame) :
  let segment_sales := groupby_sum segment sales df in
  identify_underperforming_segments df =
  match segment_sales with
  | [] => Raise ZeroDivisionError
  | _ :: _ =>
      Ok (map (share_row (Qsum (map snd segment_sales))
                 (rnd (100 / Qof_nat (List.length segment_sales))))
              segment_sales)
  end.
Proof.
  unfold identify_underperforming_segments. simpl.
  rewrite length_map.
  destruct (groupby_sum segment sales df) as [|row t] eqn:E; [reflexivity|].
  unfold int_truediv. simpl List.length. cbv beta iota zeta.
  rewrite map_map. reflexivity.
Qed.

Lemma groupby_sum_length {K : Type} `{KeyLaws K} (by_ : record -> K)
    (col : record -> Q) (df : DataFrame) :
  List.length (groupby_sum by_ col df) = List.length (unique (map by_ df)).
Proof.
  unfold groupby_sum. rewrite length_map. apply length_group_keys.
Qed.

Lemma truediv_finite {R : Rounding} (a b : Q) :
  ~ b == 0 -> truediv a b = Fin (rnd (a / b)).
Proof.
  intros Hb. unfold truediv.
  destruct (Qeq_bool b 0) eqn:E; [|reflexivity].
  apply Qeq_bool_iff in E. contradiction.
Qed.

Lemma truediv_by_zero_not_finite {R : Rounding} (a b q : Q) :
  b == 0 -> fmul_pos (truediv a b) 100 <> Fin q.
Proof.
  intros Hb. unfold truediv. apply Qeq_bool_iff in Hb. rewrite Hb.
  destruct (Qeq_bool a 0); [|destruct (Qle_bool 0 a)]; discriminate.
Qed.

Lemma fsum_Fin (qs : list Q) : fsum (map Fin qs) = Fin (Qsum qs).
Proof.
  induction qs as [|q qs IH]; [reflexivity|].
  change (fsum (map Fin (q :: qs))) with (fadd (Fin q) (fsum (map Fin qs))).
  now rewrite IH.
Qed.

(** With a total that is not zero the reducer returns one row per segment,
    each with the finite share [sum / total * 100], the quotient and the
    product rounded. *)
Lemma identify_underperforming_segments_finite {R : Rounding}
    (df : DataFrame) :
  ~ total_sales (get_kpi_metrics df) == 0 ->
  let segment_sales := groupby_sum segment sales df in
  let total := Qsum (map snd segment_sales) in
  let avg := rnd (100 / Qof_nat (nunique (map segment df))) in
  ~ total == 0
  /\ identify_underperforming_segments df
     = Ok (map (fun row =>
                  {| seg_name := fst row;
                     revenue_share := Fin (rnd (rnd (snd row / total) * 100));
                     seg_status :=
                       if flt (Fin (rnd (rnd (snd row / total) * 100))) avg
                       then BelowAverage else AboveAverage |})
               segment_sales).
Proof.
  intros Hnz segment_sales total avg.
  assert (Htot : total == total_sales (get_kpi_metrics df))
    by apply groupby_sum_total.
  assert (Hnz' : ~ total == 0) by (now rewrite Htot).
  split; [exact Hnz'|].
  rewrite identify_underperforming_segments_unfold. cbv zeta.
  fold segment_sales. fold total.
  assert (Hlen : List.length segment_sales = nunique (map segment df))
    by apply groupby_sum_length.
  destruct segment_sales as [|row t] eqn:E.
  - destruct Hnz'. reflexivity.
  - rewrite Hlen. fold avg. f_equal. apply map_ext. intros r.
    unfold share_row. cbv zeta. now rewrite (truediv_finite _ _ Hnz').
Qed.

(** C2 fails on the code: with a total of zero the share is 0/0, which is
    NaN and not 0; no guard stands before the division. *)
Theorem zero_total_share_is_nan {R : Rounding} :
  total_sales (get_kpi_metrics zero_sale) == 0
  /\ identify_underperforming_segments zero_sale
     = Ok [ {| seg_name := "Consumer"; revenue_share := NaN;
               seg_status := AboveAverage |} ].
Proof. split; reflexivity. Qed.

(** More generally, with a total of zero no share that is returned is a
    finite number. *)
Lemma zero_total_share_not_finite {R : Rounding} (df : DataFrame)
    (rows : list segment_row) (row : segment_row) (q : Q) :
  total_sales (get_kpi_metrics df) == 0 ->
  identify_underperforming_segments df = Ok rows ->
  In row rows ->
  revenue_share row <> Fin q.
Proof.
  intros Hz Hok Hin.
  rewrite identify_underperforming_segments_unfold in Hok. cbv zeta in Hok.
  assert (Htot : Qsum (map snd (groupby_sum segment sales df)) == 0).
  { rewrite groupby_sum_total. exact Hz. }
  destruct (groupby_sum segment sales df) as [|r t] eqn:E; [discriminate|].
  injection Hok as <-.
  apply (in_map_iff (share_row _ _) (r :: t)) in Hin.
  destruct Hin as [r' [<- _]].
  unfold share_row. simpl revenue_share.
  now apply truediv_by_zero_not_finite.
Qed.

(** C7, as stated, fails: the subset [zero_sale] is not empty, and its one
    share is NaN whatever the rounding; neither the plain sum of the column
    nor the sum that skips NaN is 100. *)
Lemma zero_sale_shares_do_not_sum_to_100 :
  zero_sale <> []
  /\ (forall R : Rounding,
        ~ (exists rows, identify_underperforming_segments zero_sale = Ok rows
                        /\ shares_sum_to_100 rows))
  /\ (forall R : Rounding,
        ~ (exists rows, identify_underperforming_segments zero_sale = Ok rows
                        /\ feq (nansum (map revenue_share rows)) 100)).
Proof.
  split; [discriminate|].
  split; intros R [rows [Hok Hsum]]; vm_compute in Hok; injection Hok as <-.
  - exact Hsum.
  - vm_compute in Hsum. discriminate Hsum.
Qed.

(** C7, amended.  On every record subset whose total sales is not zero the
    Revenue Share % values add up to 100, in exact arithmetic. *)
Theorem revenue_shares_sum_to_100 (df : DataFrame) :
  ~ total_sales (get_kpi_metrics df) == 0 ->
  exists rows, identify_underperforming_segments (R := exact) df = Ok rows
               /\ shares_sum_to_100 rows.
Proof.
  intros Hnz.
  destruct (identify_underperforming_segments_finite (R := exact) df Hnz)
    as [Hnz' Hok].
  cbv zeta in Hnz', Hok. cbn [rnd exact] in Hok.
  eexists. split; [exact Hok|].
  unfold shares_sum_to_100. rewrite map_map. simpl.
  rewrite <- (map_map (fun row : string * Q => snd row / _ * 100) Fin).
  rewrite fsum_Fin. simpl.
  rewrite (Qsum_map_scale (fun row : string * Q => snd row / _) 100).
  unfold Qdiv.
  rewrite (Qsum_map_scale (@snd string Q) (/ _)).
  field. exact Hnz'.
Qed.

Lemma revenue_shares_sum_to_100_witness :
  let df := scenario ("Furniture", "Chairs", "P1")
              ("Technology", "Phones", "P2") ("Furniture", "Tables", "P3") in
  ~ total_sales (get_kpi_metrics df) == 0
  /\ exists rows, identify_underperforming_segments (R := exact) df = Ok rows
                  /\ shares_sum_to_100 rows.
Proof.
  intros df.
  assert (Hnz : ~ total_sales (get_kpi_metrics df) == 0)
    by (intros E; vm_compute in E; discriminate E).
  split; [exact Hnz|].
  exact (revenue_shares_sum_to_100 df Hnz).
Defined.

(** The scenario of the specification: Consumer has 150 of 350 and is below
    the average share of 50, Corporate has 200 and is above. *)
Example scenario_segment_shares (x y z : string * string * string) :
  identify_underperforming_segments (R := exact) (scenario x y z)
  = Ok [ {| seg_name := "Consumer"; revenue_share := Fin (15000 # 350);
            seg_status := BelowAverage |};
         {| seg_name := "Corporate"; revenue_share := Fin (20000 # 350);
            seg_status := AboveAverage |} ].
Proof. reflexivity. Qed.

(** The same labels come out of the arithmetic of float64. *)
Example scenario_segment_labels (x y z : string * string * string) :
  map (fun row => (seg_name row, seg_status row))
      (match identify_underperforming_segments (R := binary64)
               (scenario x y z) with
       | Ok rows => rows
       | Raise _ => []
       end)
  = [("Consumer", BelowAverage); ("Corporate", AboveAverage)].
Proof. vm_compute. reflexivity. Qed.



(** On [even_split] both shares are 50, the average, and both segments are
    labelled above average. *)
Example even_split_labels :
  identify_underperforming_segments (R := binary64) even_split
  = Ok [ {| seg_name := "Consumer"; revenue_share := Fin (round_binary64 50);
            seg_status := AboveAverage |};
         {| seg_name := "Corporate"; revenue_share := Fin (round_binary64 50);
            seg_status := AboveAverage |} ]
  /\ round_binary64 50 == 50.
Proof. split; vm_compute; reflexivity. Qed.

(** Rounding decides the label where the exact share meets the exact
    average: of three segments with the same sales each has a third of the
    total, but float64 returns the share 33.333333333333329 and compares it
    with the average 33.333333333333336, so that all three are labelled
    below average; without rounding all three are above. *)
Example thirds_labels :
  map (fun row => (seg_name row, seg_status row))
      (match identify_underperforming_segments (R := binary64) thirds with
       | Ok rows => rows
       | Raise _ => []
       end)
  = [("Consumer", BelowAverage); ("Corporate", BelowAverage);
     ("Home Office", BelowAverage)]
  /\ map (fun row => (seg_name row, seg_status row))
         (match identify_underperforming_segments (R := exact) thirds with
          | Ok rows => rows
          | Raise _ => []
          end)
     = [("Consumer", AboveAverage); ("Corporate", AboveAverage);
        ("Home Office", AboveAverage)]
  /\ round_binary64 (round_binary64 (100 / 300) * 100)
     == 2345624805922133 # 70368744177664
  /\ round_binary64 (100 / 3) == 4691249611844267 # 140737488355328.
Proof. repeat split; vm_compute; reflexivity. Qed.

(** * Further properties of the data layer *)

(** ** filter_data as one pass over the rows *)

Lemma filter_filter {A : Type} (p q : A -> bool) (l : list A) :
  filter p (filter q l) = filter (fun x => q x && p x) l.
Proof.
  induction l as [|x l IH]; simpl; [reflexivity|].
  destruct (q x); simpl; [destruct (p x)|]; now rewrite IH.
Qed.

Lemma filter_true {A : Type} (l : list A) : filter (fun _ => true) l = l.
Proof. apply filter_all. reflexivity. Qed.

Lemma restrict_as_filter (col : record -> string) (sel : option (list string))
    (df : DataFrame) :
  restrict col sel df = filter (selected col sel) df.
Proof.
  destruct sel as [[|v values]|]; simpl; try reflexivity;
    symmetry; apply filter_true.
Qed.

Lemma restrict_dates_as_filter (date_range : option (list date))
    (df : DataFrame) :
  restrict_dates date_range df = filter (in_range date_range) df.
Proof.
  destruct date_range as [[|s [|e [|x l]]]|]; simpl; try reflexivity;
    symmetry; apply filter_true.
Qed.

(** [filter_data] keeps the rows that pass every applied test, in the order
    of the input and as often as they occur there. *)
Lemma filter_data_as_filter (df : DataFrame)
    (regions segments categories sub_categories : option (list string))
    (date_range : option (list date)) :
  filter_data df regions segments categories sub_categories date_range
  = filter (keeps regions segments categories sub_categories date_range) df.
Proof.
  unfold filter_data, keeps.
  rewrite restrict_dates_as_filter, !restrict_as_filter, !filter_filter.
  apply filter_ext. intros r. now rewrite !andb_assoc.
Qed.

(** X1.  Filtering a second time with the same arguments changes nothing. *)
Theorem filter_data_idempotent (df : DataFrame)
    (regions segments categories sub_categories : option (list string))
    (date_range : option (list date)) :
  let again f := filter_data f regions segments categories sub_categories
                   date_range in
  again (again df) = again df.
Proof.
  cbv beta zeta. rewrite !filter_data_as_filter, filter_filter.
  apply filter_ext. intros r. now destruct (keeps _ _ _ _ _ r).
Qed.

(** X2.  Two filters can be applied in either order. *)
Theorem filter_data_commutes (df : DataFrame)
    (r1 s1 c1 sc1 r2 s2 c2 sc2 : option (list string))
    (d1 d2 : option (list date)) :
  filter_data (filter_data df r1 s1 c1 sc1 d1) r2 s2 c2 sc2 d2
  = filter_data (filter_data df r2 s2 c2 sc2 d2) r1 s1 c1 sc1 d1.
Proof.
  rewrite !filter_data_as_filter, !filter_filter.
  apply filter_ext. intros r. apply andb_comm.
Qed.

(** X3.  Rows are judged one by one: filtering two frames laid end to end
    gives the two filtered frames laid end to end. *)
Theorem filter_data_app (df1 df2 : DataFrame)
    (regions segments categories sub_categories : option (list string))
    (date_range : option (list date)) :
  filter_data (df1 ++ df2)%list regions segments categories sub_categories
    date_range
  = (filter_data df1 regions segments categories sub_categories date_range
     ++ filter_data df2 regions segments categories sub_categories
          date_range)%list.
Proof.
  rewrite !filter_data_as_filter. apply filter_app.
Qed.

Lemma filter_none {A : Type} (p : A -> bool) (l : list A) :
  (forall x, In x l -> p x = false) -> filter p l = [].
Proof.
  induction l as [|x l IH]; intros Hall; simpl; [reflexivity|].
  rewrite (Hall x (or_introl eq_refl)). apply IH.
  intros y Hy. apply Hall. now right.
Qed.

(** X4.  A date range whose start lies after its end keeps no row. *)
Theorem filter_data_reversed_date_range (df : DataFrame)
    (regions segments categories sub_categories : option (list string))
    (start_date end_date : date) :
  (to_ordinal end_date < to_ordinal start_date)%Z ->
  filter_data df regions segments categories sub_categories
    (Some [start_date; end_date]) = [].
Proof.
  intros Hlt. rewrite filter_data_as_filter. apply filter_none.
  intros r _. unfold keeps, in_range, date_leb.
  destruct ((to_ordinal start_date <=? to_ordinal (order_date r))%Z) eqn:E1;
    destruct ((to_ordinal (order_date r) <=? to_ordinal end_date)%Z) eqn:E2;
    rewrite ?andb_false_r; try reflexivity.
  apply Z.leb_le in E1, E2. lia.
Qed.

Lemma filter_data_reversed_date_range_witness :
  (to_ordinal (mkDate 1 1 2023) < to_ordinal (mkDate 15 1 2023))%Z
  /\ filter_data sample None None None None
       (Some [mkDate 15 1 2023; mkDate 1 1 2023]) = [].
Proof.
  assert (H : (to_ordinal (mkDate 1 1 2023)
               < to_ordinal (mkDate 15 1 2023))%Z) by reflexivity.
  split; [exact H|].
  exact (filter_data_reversed_date_range sample None None None None _ _ H).
Defined.

Lemma selected_matches_nothing (col : record -> string)
    (sel : option (list string)) (df : DataFrame) (r : record) :
  matches_nothing col sel df -> In r df -> selected col sel r = false.
Proof.
  intros (values & -> & Hne & Hno) Hin.
  destruct values as [|v values]; [congruence|]. unfold selected.
  destruct (isin (col r) (v :: values)) eqn:E; [|reflexivity].
  apply isin_In in E. now apply Hno in E.
Qed.

(** X5.  A selection none of whose values occurs in its column, in any of
    the four dimensions, keeps no row: values that are not in the data are
    no error. *)
Theorem filter_data_unknown_values (df : DataFrame)
    (regions segments categories sub_categories : option (list string))
    (date_range : option (list date)) :
  matches_nothing region regions df
  \/ matches_nothing segment segments df
  \/ matches_nothing category categories df
  \/ matches_nothing sub_category sub_categories df ->
  filter_data df regions segments categories sub_categories date_range = [].
Proof.
  intros Hno. rewrite filter_data_as_filter. apply filter_none.
  intros r Hin. unfold keeps.
  destruct Hno as [H | [H | [H | H]]];
    rewrite (selected_matches_nothing _ _ _ _ H Hin);
    rewrite ?andb_false_r; reflexivity.
Qed.

Lemma filter_data_unknown_values_witness :
  matches_nothing sub_category (Some ["Binders"%string]) sample
  /\ filter_data sample None None (Some ["Furniture"%string])
       (Some ["Binders"%string]) None = [].
Proof.
  assert (H : matches_nothing sub_category (Some ["Binders"%string]) sample).
  { exists ["Binders"%string]. split; [reflexivity|]. split; [discriminate|].
    intros r Hin Hsub. simpl in Hin, Hsub.
    destruct Hsub as [Hsub | []].
    destruct Hin as [<- | [<- | [<- | []]]]; discriminate Hsub. }
  split; [exact H|].
  apply filter_data_unknown_values. right. right. right. exact H.
Defined.

(** ** The sidebar of the dashboard *)

Lemma In_all_values (col : record -> string) (df : DataFrame) (v : string) :
  In v (all_values col df) <-> exists r, In r df /\ col r = v.
Proof.
  unfold all_values. rewrite In_unique, in_map_iff.
  split; intros [r [H1 H2]]; exists r; tauto.
Qed.

Lemma In_available_subcategories (df : DataFrame) (cats : list string)
    (s : string) :
  In s (available_subcategories df cats)
  <-> exists r, In r df /\ In (category r) cats /\ sub_category r = s.
Proof.
  unfold available_subcategories. rewrite In_unique, in_map_iff.
  split.
  - intros [r [Hs Hr]]. apply filter_In in Hr. destruct Hr as [Hin Hc].
    apply isin_In in Hc. now exists r.
  - intros [r [Hin [Hc Hs]]]. exists r. split; [exact Hs|].
    apply filter_In. split; [exact Hin | now apply isin_In].
Qed.

Lemma available_subcategories_empty_selection (df : DataFrame) :
  available_subcategories df [] = [].
Proof.
  unfold available_subcategories.
  rewrite filter_none; [reflexivity | reflexivity].
Qed.

(** X6.  The sub-categories offered for a selection of categories are those
    of the records of the selected categories, each offered once; selecting
    more categories removes no offer, and with no category selected nothing
    is offered. *)
Theorem available_subcategories_offer (df : DataFrame) (cats : list string) :
  NoDup (available_subcategories df cats)
  /\ (forall s, In s (available_subcategories df cats)
        <-> exists r, In r df /\ In (category r) cats /\ sub_category r = s)
  /\ (forall cats', incl cats cats' ->
        incl (available_subcategories df cats)
             (available_subcategories df cats'))
  /\ available_subcategories df [] = [].
Proof.
  split; [apply NoDup_unique|].
  split; [apply In_available_subcategories|].
  split.
  - intros cats' Hincl s Hs. apply In_available_subcategories in Hs.
    apply In_available_subcategories.
    destruct Hs as [r [Hin [Hc Hs]]]. exists r. auto.
  - apply available_subcategories_empty_selection.
Qed.

(** X7.  Leaving every offered sub-category selected constrains nothing
    beyond the category selection itself. *)
Theorem offered_subcategories_constrain_nothing (df : DataFrame)
    (regions segments : option (list string)) (cats : list string)
    (date_range : option (list date)) :
  filter_data df regions segments (Some cats)
    (Some (available_subcategories df cats)) date_range
  = filter_data df regions segments (Some cats) None date_range.
Proof.
  rewrite !filter_data_as_filter. apply filter_ext_in. intros r Hin.
  unfold keeps. f_equal.
  destruct cats as [|c cats].
  - now rewrite available_subcategories_empty_selection.
  - destruct (selected category (Some (c :: cats)) r) eqn:Ec.
    + f_equal.
      assert (Hoff : In (sub_category r)
                       (available_subcategories df (c :: cats))).
      { apply In_available_subcategories. exists r.
        apply isin_In in Ec. auto. }
      unfold selected.
      destruct (available_subcategories df (c :: cats)) as [|s l] eqn:Ea;
        [destruct Hoff|].
      now apply isin_In.
    + now rewrite !andb_false_r.
Qed.

Lemma fold_left_earlier (l : list date) (x : date) :
  (to_ordinal (fold_left earlier l x) <= to_ordinal x)%Z
  /\ forall y, In y l ->
       (to_ordinal (fold_left earlier l x) <= to_ordinal y)%Z.
Proof.
  revert x. induction l as [|z l IH]; intros x; simpl.
  - split; [lia | tauto].
  - destruct (IH (earlier x z)) as [H1 H2].
    assert (Hmin : (to_ordinal (earlier x z) <= to_ordinal x
                    /\ to_ordinal (earlier x z) <= to_ordinal z)%Z).
    { unfold earlier, date_leb.
      destruct (to_ordinal x <=? to_ordinal z)%Z eqn:E;
        [apply Z.leb_le in E | apply Z.leb_gt in E]; lia. }
    split; [lia|]. intros y [<- | Hy]; [lia | now apply H2].
Qed.

Lemma fold_left_later (l : list date) (x : date) :
  (to_ordinal x <= to_ordinal (fold_left later l x))%Z
  /\ forall y, In y l ->
       (to_ordinal y <= to_ordinal (fold_left later l x))%Z.
Proof.
  revert x. induction l as [|z l IH]; intros x; simpl.
  - split; [lia | tauto].
  - destruct (IH (later x z)) as [H1 H2].
    assert (Hmax : (to_ordinal x <= to_ordinal (later x z)
                    /\ to_ordinal z <= to_ordinal (later x z))%Z).
    { unfold later, date_leb.
      destruct (to_ordinal x <=? to_ordinal z)%Z eqn:E;
        [apply Z.leb_le in E | apply Z.leb_gt in E]; lia. }
    split; [lia|]. intros y [<- | Hy]; [lia | now apply H2].
Qed.

(** The first and the last order date bound every order date. *)
Lemma order_dates_within_min_max (df : DataFrame) (a b : date) (r : record) :
  min_order_date df = Some a -> max_order_date df = Some b -> In r df ->
  (to_ordinal a <= to_ordinal (order_date r) <= to_ordinal b)%Z.
Proof.
  destruct df as [|r0 df]; [discriminate|].
  simpl. intros Ha Hb Hin. injection Ha as <-. injection Hb as <-.
  destruct (fold_left_earlier (map order_date df) (order_date r0)) as [E1 E2].
  destruct (fold_left_later (map order_date df) (order_date r0)) as [L1 L2].
  destruct Hin as [<- | Hin]; [lia|].
  split; [apply E2 | apply L2]; now apply in_map.
Qed.

Lemma selected_all_values (col : record -> string) (df : DataFrame)
    (r : record) :
  In r df -> selected col (Some (all_values col df)) r = true.
Proof.
  intros Hin.
  assert (Hv : In (col r) (all_values col df))
    by (apply In_all_values; now exists r).
  unfold selected. destruct (all_values col df); [reflexivity|].
  now apply isin_In.
Qed.

(** X8.  The view the dashboard opens with: every option of every sidebar
    filter selected and the date range spanning the first to the last order
    date.  It shows every record. *)
Theorem default_selection_shows_all (df : DataFrame) (min_date max_date : date) :
  min_order_date df = Some min_date ->
  max_order_date df = Some max_date ->
  filter_data df
    (Some (all_values region df))
    (Some (all_values segment df))
    (Some (all_values category df))
    (Some (available_subcategories df (all_values category df)))
    (Some [min_date; max_date])
  = df.
Proof.
  intros Hmin Hmax. rewrite filter_data_as_filter. apply filter_all.
  intros r Hin.
  assert (Hsub : selected sub_category
                   (Some (available_subcategories df
                            (all_values category df))) r = true).
  { assert (Hv : In (sub_category r)
                   (available_subcategories df (all_values category df))).
    { apply In_available_subcategories. exists r.
      split; [exact Hin|]. split; [|reflexivity].
      apply In_all_values. now exists r. }
    unfold selected.
    destruct (available_subcategories df (all_values category df));
      [reflexivity | now apply isin_In]. }
  destruct (order_dates_within_min_max df _ _ r Hmin Hmax Hin) as [H1 H2].
  unfold keeps.
  rewrite Hsub, (selected_all_values region df r Hin),
    (selected_all_values segment df r Hin),
    (selected_all_values category df r Hin).
  unfold in_range, date_leb.
  apply Z.leb_le in H1, H2. now rewrite H1, H2.
Qed.

Lemma default_selection_shows_all_witness :
  min_order_date sample = Some (mkDate 1 1 2023)
  /\ max_order_date sample = Some (mkDate 15 1 2023)
  /\ filter_data sample
       (Some (all_values region sample))
       (Some (all_values segment sample))
       (Some (all_values category sample))
       (Some (available_subcategories sample (all_values category sample)))
       (Some [mkDate 1 1 2023; mkDate 15 1 2023])
     = sample.
Proof.
  assert (Hmin : min_order_date sample = Some (mkDate 1 1 2023))
    by reflexivity.
  assert (Hmax : max_order_date sample = Some (mkDate 15 1 2023))
    by reflexivity.
  split; [exact Hmin|]. split; [exact Hmax|].
  exact (default_selection_shows_all sample _ _ Hmin Hmax).
Defined.

(** ** Means *)

Lemma Zsum_Permutation (l1 l2 : list Z) :
  Permutation l1 l2 -> Zsum l1 = Zsum l2.
Proof.
  induction 1 as [| x l1 l2 _ IH | x y l | l1 l2 l3 _ IH1 _ IH2]; simpl;
    unfold Zsum in *; simpl; lia.
Qed.

Lemma Zsum_bounds (lo hi : Z) (l : list Z) :
  (forall x, In x l -> (lo <= x <= hi)%Z) ->
  (lo * Z.of_nat (List.length l) <= Zsum l
   <= hi * Z.of_nat (List.length l))%Z.
Proof.
  induction l as [|x l IH]; intros Hall.
  - simpl. lia.
  - assert (Hx := Hall x (or_introl eq_refl)).
    assert (IH' := IH (fun y Hy => Hall y (or_intror Hy))).
    change (Zsum (x :: l)) with (x + Zsum l)%Z.
    change (List.length (x :: l)) with (S (List.length l)).
    lia.
Qed.

Lemma Qof_nat_pos (n : nat) : (0 < n)%nat -> 0 < Qof_nat n.
Proof.
  intros Hn. unfold Qof_nat. change 0 with (inject_Z 0).
  rewrite <- Zlt_Qlt. lia.
Qed.

Lemma mean_nan_iff (l : list Z) : mean l = NaN <-> l = [].
Proof. destruct l; simpl; split; congruence. Qed.

Lemma mean_Permutation (l1 l2 : list Z) :
  Permutation l1 l2 -> mean l1 = mean l2.
Proof.
  intros Hp.
  destruct l1 as [|x l1].
  - now rewrite (Permutation_nil Hp).
  - destruct l2 as [|y l2].
    + symmetry in Hp. apply Permutation_nil in Hp. discriminate Hp.
    + unfold mean.
      change (fold_right Z.add 0%Z) with Zsum.
      now rewrite (Zsum_Permutation _ _ Hp), (Permutation_length Hp).
Qed.

(** The mean of a column that is not empty lies between any two bounds of
    its values. *)
Lemma mean_bounds (lo hi : Z) (l : list Z) :
  l <> [] ->
  (forall x, In x l -> (lo <= x <= hi)%Z) ->
  exists q, mean l = Fin q /\ inject_Z lo <= q <= inject_Z hi.
Proof.
  intros Hne Hall. destruct l as [|x l]; [congruence|].
  eexists. split; [reflexivity|].
  change (fold_right Z.add 0%Z) with Zsum.
  assert (Hpos : 0 < Qof_nat (List.length (x :: l)))
    by (apply Qof_nat_pos; simpl; lia).
  destruct (Zsum_bounds lo hi (x :: l) Hall) as [Hlo Hhi].
  split.
  - apply Qle_shift_div_l; [exact Hpos|].
    unfold Qof_nat. rewrite <- inject_Z_mult, <- Zle_Qle. exact Hlo.
  - apply Qle_shift_div_r; [exact Hpos|].
    unfold Qof_nat. rewrite <- inject_Z_mult, <- Zle_Qle. exact Hhi.
Qed.

(** ** get_kpi_metrics: further properties *)

Lemma unique_length_le (l : list string) :
  (List.length (unique l) <= List.length l)%nat.
Proof.
  induction l as [|x l IH]; simpl; [lia|].
  apply le_n_S. etransitivity; [apply filter_length_le | exact IH].
Qed.

Lemma unique_NoDup_id (l : list string) : NoDup l -> unique l = l.
Proof.
  induction 1 as [|x l Hnotin _ IH]; simpl; [reflexivity|].
  rewrite IH. f_equal. apply filter_all.
  intros y Hy. apply negb_true_iff, String.eqb_neq. congruence.
Qed.

Lemma nunique_Permutation (l1 l2 : list string) :
  Permutation l1 l2 -> nunique l1 = nunique l2.
Proof.
  intros Hp. unfold nunique. apply Permutation_length.
  apply NoDup_Permutation; try apply NoDup_unique.
  intros x. rewrite !In_unique.
  split; apply Permutation_in; [exact Hp | now symmetry].
Qed.

(** X9.  The KPIs do not depend on the order of the rows. *)
Theorem kpi_row_order_irrelevant (df df' : DataFrame) :
  Permutation df df' ->
  let k := get_kpi_metrics df in
  let k' := get_kpi_metrics df' in
  total_sales k == total_sales k'
  /\ total_orders k = total_orders k'
  /\ avg_order_value k == avg_order_value k'
  /\ avg_shipping_days k = avg_shipping_days k'.
Proof.
  intros Hp. simpl.
  assert (Hs : Qsum (map sales df) == Qsum (map sales df'))
    by (apply Qsum_Permutation; now apply Permutation_map).
  assert (Hn : nunique (map order_id df) = nunique (map order_id df'))
    by (apply nunique_Permutation; now apply Permutation_map).
  split; [exact Hs|]. split; [exact Hn|]. split.
  - rewrite Hn. destruct (0 <? nunique (map order_id df'))%nat;
      [now rewrite Hs | reflexivity].
  - apply mean_Permutation. now apply Permutation_map.
Qed.

Lemma kpi_row_order_irrelevant_witness :
  Permutation sample (rev sample)
  /\ avg_order_value (get_kpi_metrics sample)
     == avg_order_value (get_kpi_metrics (rev sample)).
Proof.
  assert (Hp : Permutation sample (rev sample)) by apply Permutation_rev.
  split; [exact Hp|].
  exact (proj1 (proj2 (proj2 (kpi_row_order_irrelevant _ _ Hp)))).
Defined.

(** X10.  There are at most as many orders as records, and exactly as many
    when no two records share an order id. *)
Theorem total_orders_at_most_records (df : DataFrame) :
  (total_orders (get_kpi_metrics df) <= List.length df)%nat
  /\ (NoDup (map order_id df) ->
      total_orders (get_kpi_metrics df) = List.length df).
Proof.
  simpl. unfold nunique. split.
  - rewrite <- (length_map order_id df). apply unique_length_le.
  - intros Hnd. now rewrite (unique_NoDup_id _ Hnd), length_map.
Qed.

(** X11.  The average of the shipping days is undefined (NaN) exactly on
    the empty subset. *)
Theorem avg_shipping_days_nan_iff_empty (df : DataFrame) :
  avg_shipping_days (get_kpi_metrics df) = NaN <-> df = [].
Proof.
  simpl. rewrite mean_nan_iff.
  destruct df; simpl; split; congruence.
Qed.

(** X12.  On a subset that is not empty the average of the shipping days
    is a number between any two bounds of the shipping days of its
    records. *)
Theorem avg_shipping_days_within_bounds (df : DataFrame) (lo hi : Z) :
  df <> [] ->
  (forall r, In r df -> (lo <= shipping_days r <= hi)%Z) ->
  exists q, avg_shipping_days (get_kpi_metrics df) = Fin q
            /\ inject_Z lo <= q <= inject_Z hi.
Proof.
  intros Hne Hall. simpl. apply mean_bounds.
  - destruct df; [congruence | discriminate].
  - intros x Hx. apply in_map_iff in Hx. destruct Hx as [r [<- Hr]].
    now apply Hall.
Qed.

Lemma avg_shipping_days_within_bounds_witness :
  sample <> []
  /\ (forall r, In r sample -> (1 <= shipping_days r <= 2)%Z)
  /\ exists q, avg_shipping_days (get_kpi_metrics sample) = Fin q
               /\ inject_Z 1 <= q <= inject_Z 2.
Proof.
  assert (Hne : sample <> []) by discriminate.
  assert (Hall : forall r, In r sample -> (1 <= shipping_days r <= 2)%Z).
  { intros r Hin. simpl in Hin.
    destruct Hin as [<- | [<- | [<- | []]]]; vm_compute;
      split; discriminate. }
  split; [exact Hne|]. split; [exact Hall|].
  exact (avg_shipping_days_within_bounds sample 1 2 Hne Hall).
Defined.

(** ** The grouped tables, row by row *)

Section TableFacts.
Context {K : Type} `{KeyLaws K}.

Lemma groupby_sum_keys (by_ : record -> K) (col : record -> Q)
    (df : DataFrame) :
  map fst (groupby_sum by_ col df) = group_keys by_ df.
Proof.
  unfold groupby_sum. rewrite map_map. simpl. apply map_id.
Qed.

Lemma groupby_sum_table (by_ : record -> K) (col : record -> Q)
    (df : DataFrame) :
  table_of by_ col df (groupby_sum by_ col df).
Proof.
  split.
  - rewrite groupby_sum_keys. apply NoDup_group_keys.
  - intros k v. unfold groupby_sum. rewrite in_map_iff. split.
    + intros [k' [E Hin]]. injection E as -> ->.
      split; [now apply In_group_keys | reflexivity].
    + intros [Hin ->]. exists k. split; [reflexivity|].
      now apply In_group_keys.
Qed.

Lemma table_of_Permutation (by_ : record -> K) (col : record -> Q)
    (df : DataFrame) (t t' : list (K * Q)) :
  Permutation t t' -> table_of by_ col df t -> table_of by_ col df t'.
Proof.
  intros Hp [Hnd Hrows]. split.
  - eapply Permutation_NoDup; [|exact Hnd]. now apply Permutation_map.
  - intros k v. rewrite <- Hrows.
    split; apply Permutation_in; [now symmetry | exact Hp].
Qed.

Lemma sorted_table {S : SortKind} {L : SortLaws} (by_ : record -> K)
    (col : record -> Q) (df : DataFrame) :
  table_of by_ col df (sort_values_desc (groupby_sum by_ col df)).
Proof.
  eapply table_of_Permutation; [|apply groupby_sum_table].
  symmetry. apply sort_values_desc_Permutation.
Qed.
End TableFacts.

(** X13.  Each sales table has one row for each key that occurs in the
    subset and none for any other: the categories, the pairs of category
    and sub-category, the regions, the year-month buckets.  The row holds
    the sum of the sales of the records of its key. *)
Theorem sales_tables_one_row_per_group {S : SortKind} {L : SortLaws}
    (df : DataFrame) :
  table_of category sales df (fst (get_category_performance df))
  /\ table_of (fun r => (category r, sub_category r)) sales df
       (snd (get_category_performance df))
  /\ table_of region sales df (get_regional_performance df)
  /\ table_of year_month sales df (get_time_series_data df).
Proof.
  unfold get_category_performance, get_regional_performance,
    get_time_series_data. simpl.
  split; [|split; [|split]];
    first [apply sorted_table | apply groupby_sum_table].
Qed.

(** The witness of X13: the stable sort on the scenario. *)
Lemma sales_tables_one_row_per_group_witness :
  SortLaws (S := stable_sort)
  /\ table_of region sales sample
       (get_regional_performance (S := stable_sort) sample).
Proof.
  split; [exact stable_sort_laws|].
  exact (proj1 (proj2 (proj2 (sales_tables_one_row_per_group
                                (L := stable_sort_laws) sample)))).
Defined.

(** X14.  [get_regional_performance] returns the regions by Sales from the
    largest down: a row stands before every row of smaller Sales, and the
    first row has the largest Sales of all regions.  Nothing is said of the
    order of regions of equal Sales. *)
Theorem regional_performance_order {S : SortKind} {L : SortLaws}
    (df : DataFrame) :
  (forall x y, precedes x y (get_regional_performance df) ->
     snd y <= snd x)
  /\ (forall top rest, get_regional_performance df = top :: rest ->
      forall row, In row (groupby_sum region sales df) ->
        snd row <= snd top).
Proof.
  unfold get_regional_performance. split.
  - intros x y Hp. exact (sorted_by_sales _ x y Hp).
  - intros top rest E row Hin.
    assert (Hs := sort_values_desc_sorted (groupby_sum region sales df)).
    apply (Permutation_in _
             (Permutation_sym (sort_values_desc_Permutation _))) in Hin.
    rewrite E in Hs, Hin. inversion Hs as [|? ? _ Hall]; subst.
    destruct Hin as [<- | Hin]; [apply Qle_refl|].
    rewrite Forall_forall in Hall. exact (Hall row Hin).
Qed.

Lemma regional_performance_order_witness :
  SortLaws (S := backward_sort)
  /\ get_regional_performance (S := backward_sort) sample
     = [("East"%string, 200); ("West"%string, 150)]
  /\ forall row, In row (groupby_sum region sales sample) -> snd row <= 200.
Proof.
  split; [exact backward_sort_laws|]. split; [reflexivity|].
  exact (proj2 (regional_performance_order (L := backward_sort_laws) sample)
           ("East"%string, 200) [("West"%string, 150)] eq_refl).
Defined.

Lemma Permutation_filter_same {A : Type} (p : A -> bool) (l1 l2 : list A) :
  Permutation l1 l2 -> Permutation (filter p l1) (filter p l2).
Proof.
  induction 1 as [| x l1 l2 _ IH | x y l | l1 l2 l3 _ IH1 _ IH2]; simpl.
  - constructor.
  - destruct (p x); [now constructor | exact IH].
  - destruct (p x), (p y); try reflexivity. apply perm_swap.
  - now transitivity (filter p l2).
Qed.

Lemma filter_map_comm {A B : Type} (p : B -> bool) (g : A -> B) (l : list A) :
  filter p (map g l) = map g (filter (fun x => p (g x)) l).
Proof.
  induction l as [|x l IH]; simpl; [reflexivity|].
  destruct (p (g x)); simpl; now rewrite IH.
Qed.

(** The sub-category rows of one category add up to the sum of the sales of
    the records of that category. *)
Lemma subcategory_rows_of_category (df : DataFrame) (c : string) :
  Qsum (map snd
          (filter (fun row : (string * string) * Q =>
                     String.eqb (fst (fst row)) c)
                  (groupby_sum (fun r => (category r, sub_category r))
                     sales df)))
  == Qsum (map sales (group category c df)).
Proof.
  set (pk := fun r : record => (category r, sub_category r)).
  unfold groupby_sum. rewrite filter_map_comm, map_map. simpl.
  rewrite group_sums_total
    by (apply NoDup_filter, NoDup_group_keys).
  unfold group.
  rewrite (filter_ext_in
             (fun r => existsb (key_eqb (pk r))
                         (filter (fun k : string * string =>
                                    String.eqb (fst k) c)
                                 (group_keys pk df)))
             (fun r => key_eqb (category r) c));
    [reflexivity|].
  intros r Hin. apply eq_true_iff_eq.
  rewrite existsb_exists. split.
  - intros [k [Hk Ek]]. apply key_eqb_eq in Ek. subst k.
    apply filter_In in Hk. exact (proj2 Hk).
  - intros Ec. exists (pk r). split; [|apply key_eqb_refl].
    apply filter_In. split; [|exact Ec].
    apply In_group_keys. now apply in_map.
Qed.

(** X15.  The two tables of [get_category_performance] agree: the Sales of
    the sub-category rows of a category add up to the Sales of the row of
    that category. *)
Theorem subcategory_sales_refine_category {S : SortKind} {L : SortLaws}
    (df : DataFrame) (c : string) (v : Q) :
  In (c, v) (fst (get_category_performance df)) ->
  Qsum (map snd
          (filter (fun row : (string * string) * Q =>
                     String.eqb (fst (fst row)) c)
                  (snd (get_category_performance df))))
  == v.
Proof.
  intros Hin.
  assert (Hv : v = Qsum (map sales (group category c df))).
  { apply (proj2 (sorted_table category sales df)) in Hin. tauto. }
  unfold get_category_performance. simpl snd.
  rewrite (Qsum_Permutation _ _
             (Permutation_map snd
                (Permutation_filter_same _ _ _
                   (sort_values_desc_Permutation _)))).
  rewrite subcategory_rows_of_category. now rewrite Hv.
Qed.

Lemma subcategory_sales_refine_category_witness :
  SortLaws (S := stable_sort)
  /\ In ("Furniture"%string, 150)
       (fst (get_category_performance (S := stable_sort) sample))
  /\ Qsum (map snd
             (filter (fun row : (string * string) * Q =>
                        String.eqb (fst (fst row)) "Furniture")
                     (snd (get_category_performance (S := stable_sort)
                             sample))))
     == 150.
Proof.
  assert (Hin : In ("Furniture"%string, 150)
                  (fst (get_category_performance (S := stable_sort) sample)))
    by (right; left; reflexivity).
  split; [exact stable_sort_laws|]. split; [exact Hin|].
  exact (subcategory_sales_refine_category (L := stable_sort_laws)
           sample _ _ Hin).
Defined.

(** ** The tables do not depend on the order of the rows *)

Section RowOrder.
Context {K : Type} `{KeyLaws K}.




End RowOrder.



(** ** get_shipping_analysis *)

Lemma group_nonempty {K : Type} `{KeyLaws K} (by_ : record -> K)
    (df : DataFrame) (k : K) :
  In k (group_keys by_ df) -> group by_ k df <> [].
Proof.
  intros Hk. apply In_group_keys, in_map_iff in Hk.
  destruct Hk as [r [<- Hr]].
  assert (Hin : In r (group by_ (by_ r) df)).
  { apply filter_In. split; [exact Hr | apply key_eqb_refl]. }
  intros E. rewrite E in Hin. destruct Hin.
Qed.

Lemma In_get_shipping_analysis (df : DataFrame) (k : string) (m : float64) :
  In (k, m) (get_shipping_analysis df) ->
  In k (group_keys category df)
  /\ m = mean (map shipping_days (group category k df)).
Proof.
  unfold get_shipping_analysis, groupby_mean. rewrite in_map_iff.
  intros [k' [E Hin]]. injection E as -> ->. now split.
Qed.

(** X17.  [get_shipping_analysis] has one row for each category of the
    subset, in ascending order of the category names; the row holds the mean
    of the shipping days of the records of the category, which is always a
    number: no row is NaN. *)
Theorem shipping_analysis_rows (df : DataFrame) :
  let t := get_shipping_analysis df in
  StronglySorted key_lt (map fst t)
  /\ (forall k, In k (map fst t) <-> In k (map category df))
  /\ (forall k m, In (k, m) t ->
        m = mean (map shipping_days (group category k df))
        /\ exists q, m = Fin q).
Proof.
  assert (Hkeys : map fst (get_shipping_analysis df)
                  = group_keys category df).
  { unfold get_shipping_analysis, groupby_mean. rewrite map_map. simpl.
    apply map_id. }
  cbv zeta. rewrite Hkeys.
  split; [apply group_keys_ascending|].
  split; [intros k; apply In_group_keys|].
  intros k m Hin. apply In_get_shipping_analysis in Hin.
  destruct Hin as [Hk ->]. split; [reflexivity|].
  apply group_nonempty in Hk.
  destruct (group category k df) as [|r g]; [congruence|].
  simpl. eexists. reflexivity.
Qed.

(** X18.  Each mean of [get_shipping_analysis] lies between any two bounds
    of the shipping days of the records. *)
Theorem shipping_analysis_within_bounds (df : DataFrame) (lo hi : Z)
    (k : string) (m : float64) :
  (forall r, In r df -> (lo <= shipping_days r <= hi)%Z) ->
  In (k, m) (get_shipping_analysis df) ->
  exists q, m = Fin q /\ inject_Z lo <= q <= inject_Z hi.
Proof.
  intros Hall Hin. apply In_get_shipping_analysis in Hin.
  destruct Hin as [Hk ->]. apply mean_bounds.
  - intros E. apply map_eq_nil in E. revert E. now apply group_nonempty.
  - intros x Hx. apply in_map_iff in Hx. destruct Hx as [r [<- Hr]].
    apply filter_In in Hr. apply Hall, Hr.
Qed.

Lemma shipping_analysis_within_bounds_witness :
  (forall r, In r sample -> (1 <= shipping_days r <= 2)%Z)
  /\ In ("Furniture"%string, Fin (4 # 2)) (get_shipping_analysis sample)
  /\ exists q, Fin (4 # 2) = Fin q /\ inject_Z 1 <= q <= inject_Z 2.
Proof.
  assert (Hall : forall r, In r sample -> (1 <= shipping_days r <= 2)%Z).
  { intros r Hin. simpl in Hin.
    destruct Hin as [<- | [<- | [<- | []]]]; vm_compute;
      split; discriminate. }
  assert (Hin : In ("Furniture"%string, Fin (4 # 2)) (get_shipping_analysis sample))
    by (left; reflexivity).
  split; [exact Hall|]. split; [exact Hin|].
  exact (shipping_analysis_within_bounds sample 1 2 _ _ Hall Hin).
Defined.

(** ** identify_underperforming_segments: further properties *)

Lemma groupby_sum_nil_iff {K : Type} `{KeyLaws K} (by_ : record -> K)
    (col : record -> Q) (df : DataFrame) :
  groupby_sum by_ col df = [] <-> df = [].
Proof.
  unfold groupby_sum. split.
  - intros E. apply map_eq_nil in E. now apply group_keys_nil_iff in E.
  - now intros ->.
Qed.

(** X19.  [identify_underperforming_segments] raises ZeroDivisionError on
    the empty subset and on no other. *)
Theorem identify_underperforming_segments_raises_iff_empty {R : Rounding}
    (df : DataFrame) :
  identify_underperforming_segments df = Raise ZeroDivisionError <-> df = [].
Proof.
  rewrite identify_underperforming_segments_unfold. cbv zeta.
  rewrite <- (groupby_sum_nil_iff segment sales df).
  destruct (groupby_sum segment sales df); split; congruence.
Qed.

(** X20.  On a subset that is not empty the table has one row for each
    segment of the subset, in ascending order of the segment names. *)
Theorem segment_rows_one_per_segment {R : Rounding} (df : DataFrame) :
  df <> [] ->
  exists rows,
    identify_underperforming_segments df = Ok rows
    /\ StronglySorted key_lt (map seg_name rows)
    /\ forall s, In s (map seg_name rows) <-> In s (map segment df).
Proof.
  intros Hne. rewrite identify_underperforming_segments_unfold. cbv zeta.
  assert (Hkeys := groupby_sum_keys segment sales df).
  destruct (groupby_sum segment sales df) as [|row t] eqn:E.
  - apply groupby_sum_nil_iff in E. contradiction.
  - eexists. split; [reflexivity|].
    rewrite map_map.
    change (map (fun x => seg_name (share_row _ _ x)) (row :: t))
      with (map fst (row :: t)).
    rewrite Hkeys.
    split; [apply group_keys_ascending | intros s; apply In_group_keys].
Qed.

Lemma segment_rows_one_per_segment_witness :
  sample <> []
  /\ exists rows,
       identify_underperforming_segments (R := binary64) sample = Ok rows
       /\ StronglySorted key_lt (map seg_name rows)
       /\ forall s, In s (map seg_name rows) <-> In s (map segment sample).
Proof.
  assert (Hne : sample <> []) by discriminate.
  split; [exact Hne|].
  exact (segment_rows_one_per_segment (R := binary64) sample Hne).
Defined.

Lemma Qsum_nonneg (l : list Q) : (forall x, In x l -> 0 <= x) -> 0 <= Qsum l.
Proof.
  induction l as [|x l IH]; intros Hall; simpl.
  - apply Qle_refl.
  - setoid_replace 0 with (0 + 0) by ring. apply Qplus_le_compat.
    + apply Hall. now left.
    + apply IH. intros y Hy. apply Hall. now right.
Qed.

Lemma Qsum_filter_le {A : Type} (f : A -> Q) (p : A -> bool) (l : list A) :
  (forall x, In x l -> 0 <= f x) ->
  Qsum (map f (filter p l)) <= Qsum (map f l).
Proof.
  induction l as [|x l IH]; intros Hall; simpl.
  - apply Qle_refl.
  - assert (IH' := IH (fun y Hy => Hall y (or_intror Hy))).
    assert (Hx := Hall x (or_introl eq_refl)).
    destruct (p x); simpl.
    + apply Qplus_le_compat; [apply Qle_refl | exact IH'].
    + setoid_replace (Qsum (map f (filter p l)))
        with (0 + Qsum (map f (filter p l))) by ring.
      now apply Qplus_le_compat.
Qed.

(** ** The rounding of float64 *)

Lemma rne_cases (n d : Z) :
  (0 < d)%Z ->
  let q := (n / d)%Z in let r := (n mod d)%Z in
  (n = d * q + r /\ 0 <= r < d)%Z /\
  ((2 * r < d /\ rne n d = q)%Z \/
   (2 * r = d /\ (rne n d = q \/ rne n d = q + 1) /\ Z.even (rne n d) = true)%Z \/
   (2 * r > d /\ rne n d = q + 1)%Z).
Proof.
  intros Hd q r.
  assert (Hdiv : (n = d * q + r)%Z) by (apply Z.div_mod; lia).
  assert (Hr : (0 <= r < d)%Z) by (apply Z.mod_pos_bound; lia).
  split; [split; assumption|].
  unfold rne. fold q r.
  destruct (Z.compare_spec (2 * r) d) as [E | E | E].
  - right. left. split; [exact E|].
    destruct (Z.even q) eqn:Ev.
    + split; [now left | exact Ev].
    + split; [now right|]. rewrite Z.even_add, Ev. reflexivity.
  - left. now split.
  - right. right. split; [lia | reflexivity].
Qed.

Lemma rne_monotone (n1 d1 n2 d2 : Z) :
  (0 < d1)%Z -> (0 < d2)%Z -> (n1 * d2 <= n2 * d1)%Z ->
  (rne n1 d1 <= rne n2 d2)%Z.
Proof.
  intros H1 H2 Hle.
  destruct (rne_cases n1 d1 H1) as [[E1 R1] C1].
  destruct (rne_cases n2 d2 H2) as [[E2 R2] C2].
  set (m1 := rne n1 d1) in *. set (m2 := rne n2 d2) in *.
  set (q1 := (n1 / d1)%Z) in *. set (r1 := (n1 mod d1)%Z) in *.
  set (q2 := (n2 / d2)%Z) in *. set (r2 := (n2 mod d2)%Z) in *.
  clearbody m1 m2 q1 r1 q2 r2. subst n1 n2.
  assert (Hmain : (d1 * d2 * (q1 - q2) <= r2 * d1 - r1 * d2)%Z) by lia.
  assert (Hb1 : (r2 * d1 < d2 * d1)%Z) by nia.
  assert (Hb2 : (0 <= r1 * d2)%Z) by nia.
  assert (Hdd : (0 < d1 * d2)%Z) by nia.
  assert (Hq : (q1 <= q2)%Z) by nia.
  assert (Hq' : (q1 < q2 \/ (q1 = q2 /\ r1 * d2 <= r2 * d1))%Z).
  { destruct (Z.eq_dec q1 q2) as [-> | Hne]; [right | left; lia].
    split; [reflexivity | lia]. }
  destruct Hq' as [Hlt | [Heq Hr]].
  - destruct C1 as [[_ ->] | [[_ [[-> | ->] _]] | [_ ->]]];
    destruct C2 as [[_ ->] | [[_ [[-> | ->] _]] | [_ ->]]]; lia.
  - subst q2.
    destruct C1 as [[A1 B1] | [[A1 [B1 Ev1]] | [A1 B1]]];
    destruct C2 as [[A2 B2] | [[A2 [B2 Ev2]] | [A2 B2]]];
    repeat match goal with H : _ \/ _ |- _ => destruct H end;
    subst; try lia; try nia.
    exfalso. rewrite Z.even_add in Ev1. rewrite Ev2 in Ev1. discriminate.
Qed.

Lemma rne_exact (k d : Z) : (0 < d)%Z -> rne (k * d) d = k.
Proof.
  intros Hd. unfold rne.
  rewrite Z.div_mul, Z.mod_mul by lia. simpl.
  destruct d; lia.
Qed.

Lemma pow2_pos (k : Z) : (0 < 2 ^ Z.max 0 k)%Z.
Proof. apply Z.pow_pos_nonneg; lia. Qed.

Lemma scaled_den_pos (d e : Z) : (0 < d)%Z -> (0 < scaled_den d e)%Z.
Proof. intros Hd. unfold scaled_den. assert (H := pow2_pos e). nia. Qed.

(** The exponent puts the scaled value between 2^52 and 2^53. *)
Lemma binade_spec (a d : Z) :
  (0 < a)%Z -> (0 < d)%Z ->
  let e := binade a d in
  (2 ^ 52 * scaled_den d e <= scaled_num a e < 2 ^ 53 * scaled_den d e)%Z.
Proof.
  intros Ha Hd.
  destruct (Z.log2_spec a Ha) as [La1 La2].
  destruct (Z.log2_spec d Hd) as [Ld1 Ld2].
  rewrite Z.pow_succ_r in La2, Ld2 by apply Z.log2_nonneg.
  assert (Hla := Z.log2_nonneg a). assert (Hld := Z.log2_nonneg d).
  set (la := Z.log2 a) in *. set (ld := Z.log2 d) in *.
  set (e0 := (la - ld - 52)%Z).
  set (u0 := Z.max 0 (- e0)). set (v0 := Z.max 0 e0).
  assert (Hb : binade a d
               = if (a * 2 ^ u0 <? 2 ^ 52 * (d * 2 ^ v0))%Z
                 then (e0 - 1)%Z else e0) by reflexivity.
  cbv zeta. rewrite Hb. clear Hb.
  assert (Huv : (v0 - u0 = e0 /\ 0 <= u0 /\ 0 <= v0)%Z) by lia.
  (* 2^51 * d * 2^v0 < a * 2^u0 < 2^53 * d * 2^v0 *)
  assert (Hlow : (2 ^ 51 * (d * 2 ^ v0) < a * 2 ^ u0)%Z).
  { apply Z.lt_le_trans with (2 ^ (la + u0))%Z.
    - replace (la + u0)%Z with (51 + (ld + 1) + v0)%Z by lia.
      rewrite !Z.pow_add_r by lia.
      assert (0 < 2 ^ v0)%Z by (apply Z.pow_pos_nonneg; lia).
      assert (0 < 2 ^ ld)%Z by (apply Z.pow_pos_nonneg; lia).
      change (2 ^ 1)%Z with 2%Z. change (2 ^ 51)%Z with 2251799813685248%Z. nia.
    - rewrite Z.pow_add_r by lia.
      assert (0 < 2 ^ u0)%Z by (apply Z.pow_pos_nonneg; lia). nia. }
  assert (Hhigh : (a * 2 ^ u0 < 2 ^ 53 * (d * 2 ^ v0))%Z).
  { apply Z.lt_le_trans with (2 ^ (la + 1 + u0))%Z.
    - rewrite (Z.pow_add_r 2 (la + 1) u0) by lia.
      assert (0 < 2 ^ u0)%Z by (apply Z.pow_pos_nonneg; lia).
      rewrite Z.pow_add_r by lia. change (2 ^ 1)%Z with 2%Z. nia.
    - replace (la + 1 + u0)%Z with (53 + ld + v0)%Z by lia.
      rewrite !Z.pow_add_r by lia.
      assert (0 < 2 ^ v0)%Z by (apply Z.pow_pos_nonneg; lia). nia. }
  change (2 ^ 51)%Z with 2251799813685248%Z in Hlow.
  change (2 ^ 52)%Z with 4503599627370496%Z.
  change (2 ^ 53)%Z with 9007199254740992%Z in *.
  destruct (a * 2 ^ u0 <? 4503599627370496 * (d * 2 ^ v0))%Z eqn:E.
  - apply Z.ltb_lt in E. unfold scaled_num, scaled_den.
    destruct (Z_le_gt_dec 1 e0) as [Hge | Hlt].
    + replace (Z.max 0 (- (e0 - 1))) with u0 by lia.
      assert (Hv : (2 ^ v0 = 2 * 2 ^ Z.max 0 (e0 - 1))%Z).
      { replace v0 with (1 + Z.max 0 (e0 - 1))%Z by lia.
        rewrite Z.pow_add_r by lia. reflexivity. }
      rewrite Hv in *. lia.
    + replace (Z.max 0 (e0 - 1)) with v0 by lia.
      assert (Hu : (2 ^ Z.max 0 (- (e0 - 1)) = 2 * 2 ^ u0)%Z).
      { replace (Z.max 0 (- (e0 - 1))) with (1 + u0)%Z by lia.
        rewrite Z.pow_add_r by lia. reflexivity. }
      rewrite Hu. lia.
  - apply Z.ltb_ge in E. unfold scaled_num, scaled_den. fold u0 v0. lia.
Qed.

Lemma rne_bounds (n d : Z) :
  (0 < d)%Z -> (2 ^ 52 * d <= n <= 2 ^ 53 * d)%Z ->
  (2 ^ 52 <= rne n d <= 2 ^ 53)%Z.
Proof.
  intros Hd [Hlo Hhi]. split.
  - pose proof (rne_exact (2 ^ 52) d Hd) as E.
    pose proof (rne_monotone (2 ^ 52 * d) d n d Hd Hd) as M.
    rewrite E in M. apply M. nia.
  - pose proof (rne_exact (2 ^ 53) d Hd) as E.
    pose proof (rne_monotone n d (2 ^ 53 * d) d Hd Hd) as M.
    rewrite E in M. apply M. nia.
Qed.

Lemma binade_monotone (a1 d1 a2 d2 : Z) :
  (0 < a1)%Z -> (0 < d1)%Z -> (0 < a2)%Z -> (0 < d2)%Z ->
  (a1 * d2 <= a2 * d1)%Z -> (binade a1 d1 <= binade a2 d2)%Z.
Proof.
  intros Ha1 Hd1 Ha2 Hd2 Hle.
  destruct (binade_spec a1 d1 Ha1 Hd1) as [B1 _].
  destruct (binade_spec a2 d2 Ha2 Hd2) as [_ B2].
  set (e1 := binade a1 d1) in *. set (e2 := binade a2 d2) in *.
  destruct (Z_le_gt_dec e1 e2) as [Hok | Hgt]; [exact Hok | exfalso].
  unfold scaled_num, scaled_den in B1, B2.
  set (u1 := Z.max 0 (- e1)) in *. set (v1 := Z.max 0 e1) in *.
  set (u2 := Z.max 0 (- e2)) in *. set (v2 := Z.max 0 e2) in *.
  assert (Hpow : (2 ^ v1 * 2 ^ u2 = 2 ^ (e1 - e2) * (2 ^ v2 * 2 ^ u1))%Z).
  { rewrite <- !Z.pow_add_r by lia. f_equal. lia. }
  assert (Hk : (2 <= 2 ^ (e1 - e2))%Z).
  { change 2%Z with (2 ^ 1)%Z at 1. apply Z.pow_le_mono_r; lia. }
  assert (HU1 : (0 < 2 ^ u1)%Z) by (apply Z.pow_pos_nonneg; lia).
  assert (HU2 : (0 < 2 ^ u2)%Z) by (apply Z.pow_pos_nonneg; lia).
  assert (HV1 : (0 < 2 ^ v1)%Z) by (apply Z.pow_pos_nonneg; lia).
  assert (HV2 : (0 < 2 ^ v2)%Z) by (apply Z.pow_pos_nonneg; lia).
  change (2 ^ 52)%Z with 4503599627370496%Z in B1.
  change (2 ^ 53)%Z with 9007199254740992%Z in B2.
  set (U1 := (2 ^ u1)%Z) in *. set (U2 := (2 ^ u2)%Z) in *.
  set (V1 := (2 ^ v1)%Z) in *. set (V2 := (2 ^ v2)%Z) in *.
  set (k := (2 ^ (e1 - e2))%Z) in *.
  clearbody U1 U2 V1 V2 k.
  assert (S1 : (4503599627370496 * (d1 * V1) * (d2 * U2)
                <= a1 * U1 * (d2 * U2))%Z) by nia.
  assert (S2 : (a1 * U1 * (d2 * U2) <= a2 * U2 * (d1 * U1))%Z) by nia.
  assert (S3 : (a2 * U2 * (d1 * U1)
                < 9007199254740992 * (d2 * V2) * (d1 * U1))%Z) by nia.
  assert (S4 : (4503599627370496 * (d1 * d2) * (V1 * U2)
                < 9007199254740992 * (d1 * d2) * (V2 * U1))%Z) by lia.
  rewrite Hpow in S4.
  assert (Hdd : (0 < d1 * d2)%Z) by nia.
  assert (Hvu : (0 < V2 * U1)%Z) by nia.
  set (dd := (d1 * d2)%Z) in *. set (w := (V2 * U1)%Z) in *.
  clearbody dd w. nia.
Qed.

Lemma pow2Q_pos (e : Z) : 0 < 2 ^ e.
Proof. apply Qpower_0_lt. reflexivity. Qed.

Lemma pow2Q_split (e1 e2 : Z) :
  (e1 <= e2)%Z -> 2 ^ e2 == inject_Z (2 ^ (e2 - e1)) * 2 ^ e1.
Proof.
  intros H. rewrite Zpower_Qpower by lia.
  change (inject_Z 2) with 2.
  rewrite <- Qpower_plus by discriminate.
  replace (e2 - e1 + e1)%Z with e2 by lia. reflexivity.
Qed.

Lemma round_pos_monotone (a1 d1 a2 d2 : Z) :
  (0 < a1)%Z -> (0 < d1)%Z -> (0 < a2)%Z -> (0 < d2)%Z ->
  (a1 * d2 <= a2 * d1)%Z -> round_pos a1 d1 <= round_pos a2 d2.
Proof.
  intros Ha1 Hd1 Ha2 Hd2 Hle.
  pose proof (binade_monotone a1 d1 a2 d2 Ha1 Hd1 Ha2 Hd2 Hle) as He.
  pose proof (binade_spec a1 d1 Ha1 Hd1) as B1.
  pose proof (binade_spec a2 d2 Ha2 Hd2) as B2.
  unfold round_pos. cbv zeta in B1, B2.
  set (e1 := binade a1 d1) in *. set (e2 := binade a2 d2) in *.
  pose proof (scaled_den_pos d1 e1 Hd1) as D1.
  pose proof (scaled_den_pos d2 e2 Hd2) as D2.
  assert (M1 : (2 ^ 52 <= rne (scaled_num a1 e1) (scaled_den d1 e1) <= 2 ^ 53)%Z)
    by (apply rne_bounds; [assumption | lia]).
  assert (M2 : (2 ^ 52 <= rne (scaled_num a2 e2) (scaled_den d2 e2) <= 2 ^ 53)%Z)
    by (apply rne_bounds; [assumption | lia]).
  rewrite (pow2Q_split e1 e2 He), Qmult_assoc.
  apply Qmult_le_compat_r; [| apply Qlt_le_weak, pow2Q_pos].
  rewrite <- inject_Z_mult, <- Zle_Qle.
  destruct (Z.eq_dec e1 e2) as [Heq | Hne].
  - replace (e2 - e1)%Z with 0%Z by lia.
    change (2 ^ 0)%Z with 1%Z. rewrite Z.mul_1_r.
    apply rne_monotone; try assumption.
    unfold scaled_num, scaled_den. rewrite <- Heq.
    pose proof (pow2_pos (- e1)). pose proof (pow2_pos e1).
    nia.
  - assert (Hk : (2 <= 2 ^ (e2 - e1))%Z).
    { change 2%Z with (2 ^ 1)%Z at 1. apply Z.pow_le_mono_r; lia. }
    change (2 ^ 52)%Z with 4503599627370496%Z in M1, M2.
    change (2 ^ 53)%Z with 9007199254740992%Z in M1, M2.
    nia.
Qed.

Lemma round_pos_nonneg (a d : Z) :
  (0 < a)%Z -> (0 < d)%Z -> 0 <= round_pos a d.
Proof.
  intros Ha Hd. pose proof (binade_spec a d Ha Hd) as B.
  unfold round_pos. cbv zeta in B.
  set (e := binade a d) in *.
  pose proof (scaled_den_pos d e Hd) as D.
  assert (M : (2 ^ 52 <= rne (scaled_num a e) (scaled_den d e) <= 2 ^ 53)%Z)
    by (apply rne_bounds; [assumption | lia]).
  apply Qmult_le_0_compat; [| apply Qlt_le_weak, pow2Q_pos].
  change 0 with (inject_Z 0). rewrite <- Zle_Qle.
  change (2 ^ 52)%Z with 4503599627370496%Z in M. lia.
Qed.

Lemma round_pos_opp_nonpos (a d : Z) :
  (0 < a)%Z -> (0 < d)%Z -> - round_pos a d <= 0.
Proof.
  intros Ha Hd.
  exact (Qopp_le_compat 0 _ (round_pos_nonneg a d Ha Hd)).
Qed.

Lemma round_binary64_monotone (x y : Q) :
  x <= y -> round_binary64 x <= round_binary64 y.
Proof.
  destruct x as [xn xd], y as [yn yd].
  unfold Qle, round_binary64. simpl Qnum. simpl Qden. intros H.
  destruct xn as [| xp | xp], yn as [| yp | yp]; try lia.
  - apply round_pos_nonneg; lia.
  - apply round_pos_monotone; lia.
  - apply round_pos_opp_nonpos; lia.
  - apply Qle_trans with 0.
    + apply round_pos_opp_nonpos; lia.
    + apply round_pos_nonneg; lia.
  - apply Qopp_le_compat. apply round_pos_monotone; lia.
Qed.

Lemma round_binary64_0 : round_binary64 0 == 0.
Proof. reflexivity. Qed.

Lemma round_binary64_1 : round_binary64 1 == 1.
Proof. vm_compute. reflexivity. Qed.

Lemma round_binary64_100 : round_binary64 100 == 100.
Proof. vm_compute. reflexivity. Qed.

(** The rounding of float64 keeps the order, and returns 0, 1 and 100 as
    they are. *)
Lemma binary64_laws : RoundingLaws (R := binary64).
Proof.
  split.
  - exact round_binary64_monotone.
  - exact round_binary64_0.
  - exact round_binary64_1.
  - exact round_binary64_100.
Qed.

Lemma exact_laws : RoundingLaws (R := exact).
Proof.
  split; simpl; try reflexivity. intros x y Hxy. exact Hxy.
Qed.

Lemma rnd_between {R : Rounding} {L : RoundingLaws} (x lo hi : Q) :
  rnd lo == lo -> rnd hi == hi -> lo <= x <= hi -> lo <= rnd x <= hi.
Proof.
  intros Hlo Hhi [H1 H2]. split.
  - rewrite <- Hlo. now apply rnd_monotone.
  - rewrite <- Hhi. now apply rnd_monotone.
Qed.

(** X22.  When no amount is negative and the total is positive, every
    share is a number between 0 and 100: in exact arithmetic, in float64
    ([binary64_laws]), and under every rounding that keeps the order and
    returns 0, 1 and 100 as they are. *)
Theorem revenue_shares_between_0_and_100 {R : Rounding} {L : RoundingLaws}
    (df : DataFrame) :
  (forall r, In r df -> 0 <= sales r) ->
  0 < total_sales (get_kpi_metrics df) ->
  exists rows,
    identify_underperforming_segments df = Ok rows
    /\ forall row, In row rows ->
         exists q, revenue_share row = Fin q /\ 0 <= q <= 100.
Proof.
  intros Hnonneg Hpos.
  assert (Hnz : ~ total_sales (get_kpi_metrics df) == 0).
  { intros E. rewrite E in Hpos. now apply Qlt_irrefl in Hpos. }
  destruct (identify_underperforming_segments_finite df Hnz) as [_ Hok].
  cbv zeta in Hok.
  assert (Htot : Qsum (map snd (groupby_sum segment sales df))
                 == Qsum (map sales df)) by apply groupby_sum_total.
  set (total := Qsum (map snd (groupby_sum segment sales df))) in *.
  assert (Hpos' : 0 < total) by (rewrite Htot; exact Hpos).
  eexists. split; [exact Hok|].
  intros row Hin. apply in_map_iff in Hin.
  destruct Hin as [[k v] [<- Hkv]]. simpl.
  eexists. split; [reflexivity|].
  apply (proj2 (groupby_sum_table segment sales df)) in Hkv.
  destruct Hkv as [_ ->].
  set (v := Qsum (map sales (group segment k df))).
  assert (Hv0 : 0 <= v).
  { apply Qsum_nonneg. intros x Hx. apply in_map_iff in Hx.
    destruct Hx as [r [<- Hr]]. apply filter_In in Hr. apply Hnonneg, Hr. }
  assert (Hv1 : v <= total).
  { rewrite Htot. apply Qsum_filter_le. exact Hnonneg. }
  assert (Hq : 0 <= rnd (v / total) <= 1).
  { apply rnd_between; [apply rnd_0 | apply rnd_1 |]. split.
    - apply Qle_shift_div_l; [exact Hpos'|]. now rewrite Qmult_0_l.
    - apply Qle_shift_div_r; [exact Hpos'|]. now rewrite Qmult_1_l. }
  apply rnd_between; [apply rnd_0 | apply rnd_100 |]. split.
  - setoid_replace 0 with (0 * 100) by ring.
    apply Qmult_le_compat_r; [tauto | discriminate].
  - setoid_replace 100 with (1 * 100) at 2 by ring.
    apply Qmult_le_compat_r; [tauto | discriminate].
Qed.

Lemma revenue_shares_between_0_and_100_witness :
  RoundingLaws (R := binary64)
  /\ (forall r, In r sample -> 0 <= sales r)
  /\ 0 < total_sales (get_kpi_metrics sample)
  /\ exists rows,
       identify_underperforming_segments (R := binary64) sample = Ok rows
       /\ forall row, In row rows ->
            exists q, revenue_share row = Fin q /\ 0 <= q <= 100.
Proof.
  assert (Hnonneg : forall r, In r sample -> 0 <= sales r).
  { intros r Hin. simpl in Hin.
    destruct Hin as [<- | [<- | [<- | []]]]; discriminate. }
  assert (Hpos : 0 < total_sales (get_kpi_metrics sample)) by reflexivity.
  split; [exact binary64_laws|]. split; [exact Hnonneg|]. split; [exact Hpos|].
  exact (revenue_shares_between_0_and_100 (L := binary64_laws) sample
           Hnonneg Hpos).
Defined.

(** ** The year-month buckets sort chronologically *)

Lemma key_lt_trans {K : Type} `{KeyLaws K} (a b c : K) :
  key_lt a b -> key_lt b c -> key_lt a c.
Proof.
  intros [Hab Hne] [Hbc Hne']. split.
  - now apply key_leb_trans with b.
  - intros ->. apply Hne. now apply key_leb_antisym.
Qed.

Lemma key_lt_asym {K : Type} `{KeyLaws K} (a b : K) :
  key_lt a b -> ~ key_lt b a.
Proof.
  intros [Hab Hne] [Hba _]. apply Hne. now apply key_leb_antisym.
Qed.

Lemma month_key_step_check :
  forallb (fun k => let i := (20124 + Z.of_nat k)%Z in
                    String.leb (month_key i) (month_key (i + 1))
                    && negb (String.eqb (month_key i) (month_key (i + 1))))
          (seq 0 (586 * 12 - 1))
  = true.
Proof. vm_compute. reflexivity. Qed.

Lemma month_key_step (i : Z) :
  (20124 <= i < 27155)%Z -> key_lt (month_key i) (month_key (i + 1)).
Proof.
  intros Hi.
  assert (Hin : In (Z.to_nat (i - 20124)) (seq 0 (586 * 12 - 1)))
    by (apply in_seq; lia).
  apply (proj1 (forallb_forall _ _) month_key_step_check) in Hin.
  cbv zeta in Hin.
  replace (20124 + Z.of_nat (Z.to_nat (i - 20124)))%Z with i in Hin by lia.
  apply andb_true_iff in Hin. destruct Hin as [Hle Hne].
  split; [exact Hle|].
  apply negb_true_iff, String.eqb_neq in Hne. exact Hne.
Qed.

Lemma month_key_increasing_by (n : nat) (i : Z) :
  (20124 <= i)%Z -> (i + 1 + Z.of_nat n <= 27155)%Z ->
  key_lt (month_key i) (month_key (i + 1 + Z.of_nat n)).
Proof.
  induction n as [|n IH]; intros Hlo Hhi.
  - replace (i + 1 + Z.of_nat 0)%Z with (i + 1)%Z by lia.
    apply month_key_step. lia.
  - apply key_lt_trans with (month_key (i + 1 + Z.of_nat n)).
    + apply IH; lia.
    + replace (i + 1 + Z.of_nat (S n))%Z
        with (i + 1 + Z.of_nat n + 1)%Z by lia.
      apply month_key_step. lia.
Qed.

Lemma month_key_increasing (i j : Z) :
  (20124 <= i)%Z -> (i < j)%Z -> (j <= 27155)%Z ->
  key_lt (month_key i) (month_key j).
Proof.
  intros Hlo Hij Hhi.
  replace j with (i + 1 + Z.of_nat (Z.to_nat (j - i - 1)))%Z by lia.
  apply month_key_increasing_by; lia.
Qed.

Lemma period_M_month_key (d : date) :
  timestamp_month d -> period_M d = month_key (month_index d).
Proof.
  intros [Hy Hm]. unfold month_key, month_index, period_M. simpl.
  replace ((d_year d * 12 + d_month d - 1) mod 12)%Z
    with (d_month d - 1)%Z
    by (apply Z.mod_unique with (q := d_year d); lia).
  replace ((d_year d * 12 + d_month d - 1) / 12)%Z with (d_year d)
    by (apply Z.div_unique with (r := (d_month d - 1)%Z); lia).
  now replace (d_month d - 1 + 1)%Z with (d_month d) by lia.
Qed.

Lemma month_index_range (d : date) :
  timestamp_month d -> (20124 <= month_index d <= 27155)%Z.
Proof. intros [Hy Hm]. unfold month_index. lia. Qed.

Lemma period_M_compare (d1 d2 : date) :
  timestamp_month d1 -> timestamp_month d2 ->
  (key_lt (period_M d1) (period_M d2)
   <-> (month_index d1 < month_index d2)%Z)
  /\ (period_M d1 = period_M d2 <-> month_index d1 = month_index d2).
Proof.
  intros H1 H2.
  assert (R1 := month_index_range d1 H1).
  assert (R2 := month_index_range d2 H2).
  rewrite (period_M_month_key d1 H1), (period_M_month_key d2 H2).
  set (i := month_index d1) in *. set (j := month_index d2) in *.
  destruct (Z.lt_trichotomy i j) as [Hlt | [Heq | Hgt]].
  - assert (L : key_lt (month_key i) (month_key j))
      by (apply month_key_increasing; lia).
    split; split; try lia; try tauto.
    intros E. destruct L as [_ Hne]. contradiction.
  - rewrite Heq. split; split; try lia; try tauto.
    intros [_ Hne]. now destruct Hne.
  - assert (L : key_lt (month_key j) (month_key i))
      by (apply month_key_increasing; lia).
    split; split; try lia.
    + intros L'. exfalso. exact (key_lt_asym _ _ L L').
    + intros E. destruct L as [_ Hne]. symmetry in E. contradiction.
Qed.

(** X23.  For dates a timestamp can hold, the bucket keys "YYYY-MM" compare
    as strings the way their months compare in time, and two dates have the
    same key exactly when they lie in the same month. *)
Theorem period_M_chronological (d1 d2 : date) :
  timestamp_month d1 -> timestamp_month d2 ->
  (key_lt (period_M d1) (period_M d2)
   <-> (month_index d1 < month_index d2)%Z)
  /\ (period_M d1 = period_M d2 <-> month_index d1 = month_index d2).
Proof.
  intros H1 H2. split.
  - apply (period_M_compare d1 d2 H1 H2).
  - apply (period_M_compare d1 d2 H1 H2).
Qed.

Lemma period_M_chronological_witness :
  timestamp_month (mkDate 28 12 2023) /\ timestamp_month (mkDate 5 1 2024)
  /\ key_lt (period_M (mkDate 28 12 2023)) (period_M (mkDate 5 1 2024)).
Proof.
  assert (H1 : timestamp_month (mkDate 28 12 2023))
    by (unfold timestamp_month; simpl; lia).
  assert (H2 : timestamp_month (mkDate 5 1 2024))
    by (unfold timestamp_month; simpl; lia).
  split; [exact H1|]. split; [exact H2|].
  apply (proj1 (period_M_chronological _ _ H1 H2)).
  reflexivity.
Defined.

(** X24.  The time series of a loaded frame is in chronological order: of
    two rows of [get_time_series_data], the first is the bucket of an
    earlier month than the second. *)
Theorem time_series_chronological (rows : list csv_row)
    (x y : string * Q) (r1 r2 : record) :
  (forall row, In row rows -> timestamp_month (csv_order_date row)) ->
  precedes x y (get_time_series_data (load_data rows)) ->
  In r1 (load_data rows) -> year_month r1 = fst x ->
  In r2 (load_data rows) -> year_month r2 = fst y ->
  (month_index (order_date r1) < month_index (order_date r2))%Z.
Proof.
  intros Hvalid Hp Hr1 E1 Hr2 E2.
  assert (Hlt : key_lt (fst x) (fst y)).
  { exact (StronglySorted_precedes row_key_lt _ x y
             (groupby_sum_ascending year_month sales (load_data rows)) Hp). }
  unfold load_data in Hr1, Hr2. apply in_map_iff in Hr1, Hr2.
  destruct Hr1 as [c1 [<- Hc1]]. destruct Hr2 as [c2 [<- Hc2]].
  simpl in *. rewrite <- E1, <- E2 in Hlt.
  now apply (period_M_compare _ _ (Hvalid c1 Hc1) (Hvalid c2 Hc2)).
Qed.

Lemma time_series_chronological_witness :
  (forall row, In row winter_rows -> timestamp_month (csv_order_date row))
  /\ precedes ("2023-12"%string, 70) ("2024-01"%string, 30)
       (get_time_series_data winter)
  /\ (month_index (order_date (load_row winter_december))
      < month_index (order_date (load_row winter_january)))%Z.
Proof.
  assert (Hvalid : forall row, In row winter_rows ->
                     timestamp_month (csv_order_date row)).
  { intros row [<- | [<- | []]]; unfold timestamp_month; simpl; lia. }
  assert (Hp : precedes ("2023-12"%string, 70) ("2024-01"%string, 30)
                 (get_time_series_data (load_data winter_rows)))
    by (exists [], [], []; reflexivity).
  split; [exact Hvalid|]. split; [exact Hp|].
  refine (time_series_chronological winter_rows _ _
            (load_row winter_december) (load_row winter_january)
            Hvalid Hp _ _ _ _).
  - right. left. reflexivity.
  - reflexivity.
  - left. reflexivity.
  - reflexivity.
Defined.

(** ** The top products of the dashboard *)

Lemma StronglySorted_app_cross {A : Type} (R : A -> A -> Prop)
    (l1 l2 : list A) (x y : A) :
  StronglySorted R (l1 ++ l2) -> In x l1 -> In y l2 -> R x y.
Proof.
  induction l1 as [|a l1 IH]; intros Hs Hx Hy; [destruct Hx|].
  simpl in Hs. inversion Hs as [|? ? Hs' Hall]; subst.
  destruct Hx as [-> | Hx].
  - rewrite Forall_forall in Hall. apply Hall, in_or_app. now right.
  - now apply IH.
Qed.

Lemma StronglySorted_app_l {A : Type} (R : A -> A -> Prop) (l1 l2 : list A) :
  StronglySorted R (l1 ++ l2) -> StronglySorted R l1.
Proof.
  induction l1 as [|a l1 IH]; intros Hs; [constructor|].
  simpl in Hs. inversion Hs as [|? ? Hs' Hall]; subst.
  constructor; [now apply IH|].
  apply Forall_app in Hall. tauto.
Qed.

Section NLargest.
Context {S : SortKind} {L : SortLaws} {K : Type}.

(** [nlargest n t] is a leading part of the sorted table. *)
Lemma nlargest_split (n : nat) (t : list (K * Q)) :
  sort_values_desc t = (nlargest n t ++ skipn n (sort_values_desc t))%list.
Proof. unfold nlargest. symmetry. apply firstn_skipn. Qed.

Lemma nlargest_sorted (n : nat) (t : list (K * Q)) :
  StronglySorted sales_ge (nlargest n t).
Proof.
  apply StronglySorted_app_l with (l2 := skipn n (sort_values_desc t)).
  rewrite <- nlargest_split. apply sort_values_desc_sorted.
Qed.

Lemma nlargest_In (n : nat) (t : list (K * Q)) (x : K * Q) :
  In x (nlargest n t) -> In x t.
Proof.
  intros Hx. apply (Permutation_in _ (sort_values_desc_Permutation t)).
  rewrite (nlargest_split n t). apply in_or_app. now left.
Qed.

Lemma nlargest_dominates (n : nat) (t : list (K * Q)) (x y : K * Q) :
  In x (nlargest n t) -> In y t -> ~ In y (nlargest n t) -> snd y <= snd x.
Proof.
  intros Hx Hy Hny.
  apply (Permutation_in _ (Permutation_sym (sort_values_desc_Permutation t)))
    in Hy.
  rewrite (nlargest_split n t) in Hy. apply in_app_or in Hy.
  destruct Hy as [Hy | Hy]; [contradiction|].
  refine (StronglySorted_app_cross sales_ge _ _ x y _ Hx Hy).
  rewrite <- nlargest_split. apply sort_values_desc_sorted.
Qed.

Lemma nlargest_length (n : nat) (t : list (K * Q)) :
  List.length (nlargest n t) = Nat.min n (List.length t).
Proof.
  unfold nlargest. rewrite length_firstn.
  now rewrite (Permutation_length (sort_values_desc_Permutation t)).
Qed.
End NLargest.

(** X25.  The table of the top products holds ten products, or all of them
    when the subset has fewer; each row is a product with the sum of its
    sales; the rows stand by revenue from the largest down; and no product
    that is left out has a larger revenue than one that is listed. *)
Theorem top_products_are_the_largest {S : SortKind} {L : SortLaws}
    (df : DataFrame) :
  let by_product := groupby_sum product_name sales df in
  let top := top_products df in
  List.length top = Nat.min 10 (nunique (map product_name df))
  /\ (forall row, In row top -> In row by_product)
  /\ StronglySorted sales_ge top
  /\ (forall x y, In x top -> In y by_product -> ~ In y top ->
        snd y <= snd x).
Proof.
  cbv zeta. unfold top_products.
  split; [|split; [|split]].
  - rewrite nlargest_length, groupby_sum_length. reflexivity.
  - intros row. apply nlargest_In.
  - apply nlargest_sorted.
  - intros x y. apply nlargest_dominates.
Qed.

(** The witness of X25: the backward sort on the scenario, which has three
    products. *)
Lemma top_products_are_the_largest_witness :
  SortLaws (S := backward_sort)
  /\ List.length (top_products (S := backward_sort) sample) = 3%nat
  /\ StronglySorted sales_ge (top_products (S := backward_sort) sample).
Proof.
  split; [exact backward_sort_laws|].
  destruct (top_products_are_the_largest (L := backward_sort_laws) sample)
    as (Hlen & _ & Hsorted & _).
  split; [exact Hlen | exact Hsorted].
Defined.

(** X26.  In a loaded frame two records fall into the same year-month
    bucket exactly when their order dates have the same year and the same
    month. *)
Theorem same_bucket_iff_same_month (rows : list csv_row) (r1 r2 : record) :
  (forall row, In row rows -> timestamp_month (csv_order_date row)) ->
  In r1 (load_data rows) -> In r2 (load_data rows) ->
  (year_month r1 = year_month r2 <-> year r1 = year r2 /\ month r1 = month r2).
Proof.
  intros Hvalid Hr1 Hr2.
  unfold load_data in Hr1, Hr2. apply in_map_iff in Hr1, Hr2.
  destruct Hr1 as [c1 [<- Hc1]]. destruct Hr2 as [c2 [<- Hc2]]. simpl.
  assert (H1 := Hvalid c1 Hc1). assert (H2 := Hvalid c2 Hc2).
  rewrite (proj2 (period_M_compare _ _ H1 H2)).
  destruct H1 as [Hy1 Hm1], H2 as [Hy2 Hm2]. unfold month_index. lia.
Qed.

Lemma same_bucket_iff_same_month_witness :
  let a := order_A ("Furniture"%string, "Chairs"%string, "Chair X"%string) in
  let b := order_B ("Technology"%string, "Phones"%string, "Phone Y"%string) in
  (forall row, In row [a; b] -> timestamp_month (csv_order_date row))
  /\ year_month (load_row a) = year_month (load_row b).
Proof.
  intros a b.
  assert (Hvalid : forall row, In row [a; b] ->
                     timestamp_month (csv_order_date row)).
  { intros row [<- | [<- | []]]; unfold timestamp_month; simpl; lia. }
  split; [exact Hvalid|].
  apply (same_bucket_iff_same_month [a; b] (load_row a) (load_row b) Hvalid).
  - left. reflexivity.
  - right. left. reflexivity.
  - split; reflexivity.
Defined.

(** ** Filtering, then aggregating *)

(** X28.  Filtering never adds anything: the filtered frame has at most as
    many records and as many orders as the frame, and, when no amount is
    negative, at most its total sales. *)
Theorem filter_data_never_adds (df : DataFrame)
    (regions segments categories sub_categories : option (list string))
    (date_range : option (list date)) :
  let filtered_df :=
    filter_data df regions segments categories sub_categories date_range in
  (List.length filtered_df <= List.length df)%nat
  /\ (total_orders (get_kpi_metrics filtered_df)
      <= total_orders (get_kpi_metrics df))%nat
  /\ ((forall r, In r df -> 0 <= sales r) ->
      total_sales (get_kpi_metrics filtered_df)
      <= total_sales (get_kpi_metrics df)).
Proof.
  cbv zeta. rewrite filter_data_as_filter.
  set (p := keeps regions segments categories sub_categories date_range).
  split; [apply filter_length_le|]. split.
  - simpl. unfold nunique. apply NoDup_incl_length; [apply NoDup_unique|].
    intros x Hx. apply (proj1 (In_unique _ _)) in Hx.
    apply (proj2 (In_unique _ _)).
    apply in_map_iff in Hx. destruct Hx as [r [<- Hr]].
    apply in_map. apply filter_In in Hr. tauto.
  - intros Hnonneg. simpl. now apply Qsum_filter_le.
Qed.

(** X29.  A row of the regional table holds the total sales the KPIs show
    when the frame is filtered on that region alone. *)
Theorem regional_row_is_filtered_total {S : SortKind} {L : SortLaws}
    (df : DataFrame) (reg : string) (v : Q) :
  In (reg, v) (get_regional_performance df) ->
  v == total_sales
         (get_kpi_metrics (filter_data df (Some [reg]) None None None None)).
Proof.
  intros Hin.
  apply (proj2 (sorted_table region sales df)) in Hin.
  destruct Hin as [_ ->]. simpl.
  unfold group. rewrite (filter_ext _ (fun r => isin (region r) [reg]));
    [reflexivity|].
  intros r. unfold isin. simpl. now rewrite orb_false_r.
Qed.

Lemma regional_row_is_filtered_total_witness :
  SortLaws (S := stable_sort)
  /\ In ("West"%string, 150)
       (get_regional_performance (S := stable_sort) sample)
  /\ 150 == total_sales
              (get_kpi_metrics
                 (filter_data sample (Some ["West"%string]) None None None
                    None)).
Proof.
  assert (Hin : In ("West"%string, 150)
                  (get_regional_performance (S := stable_sort) sample))
    by (right; left; reflexivity).
  split; [exact stable_sort_laws|]. split; [exact Hin|].
  exact (regional_row_is_filtered_total (L := stable_sort_laws)
           sample _ _ Hin).
Defined.
